(** * PaisaPrompt: the form controller and the prompt/response adapter of App.tsx

    A shallow embedding of [src/App.tsx]: the situation record and the five
    [useState] cells of the [App] component, the handlers [handleInputChange],
    [generateOutput] and [copyToClipboard], the two mode buttons, and the
    event loop of the page (clicks, the settlement of the pending generation
    call, the acknowledgement timers).

    Handlers are programs in a small monad of effects: calls of the state
    setters, calls of the platform (console, clipboard, timers), exceptions,
    and the one [await] of the generation call.  A turn of the event loop
    runs a handler up to its end or its [await]; the batched setter calls of
    the turn are applied in order and the view is rendered again before the
    next event, so each handler closes over the state its turn starts in. *)

From Stdlib Require Import String Ascii List Bool Arith NArith ZArith Lia.
From Stdlib Require Import DecimalString DecimalNat.
Import ListNotations.
Local Open Scope string_scope.
Local Open Scope list_scope.

Set Warnings "-register-all".


(** ** JavaScript strings and values *)

Module Js.

Definition LF : string := String "010"%char EmptyString.

(** [!s] on a string: only the empty string is falsy. *)
Definition falsy (s : string) : bool :=
  match s with
  | EmptyString => true
  | String _ _ => false
  end.

(** [s || d] on strings. *)
Definition or_else (s d : string) : string :=
  if falsy s then d else s.

(** [x || d] where [x] may be [undefined]. *)
Definition opt_or_else (x : option string) (d : string) : string :=
  match x with
  | None => d
  | Some s => or_else s d
  end.

(** [`${i}`] for an array index. *)
Definition of_index (i : nat) : string :=
  NilZero.string_of_uint (Nat.to_uint i).

End Js.

(** ** Types (App.tsx, lines 4-32) *)

Inductive Mode := collect | negotiate.
Inductive Language := Hinglish | English.

Definition Mode_str (m : Mode) : string :=
  match m with
  | collect => "collect"
  | negotiate => "negotiate"
  end.

Definition Language_str (l : Language) : string :=
  match l with
  | Hinglish => "Hinglish"
  | English => "English"
  end.

Record SituationDetails := {
  mode : Mode;
  amount : string;
  overdue : string;
  relationship : string;
  channel : string;
  language : Language;
  customerName : string;
  yourName : string;
  otherInfo : string;
  delayReason : string;
  proposedSolution : string;
  customReason : string;
  customSolution : string
}.

Record GeneratedMessage := {
  variant : string;
  title : string;
  content : string
}.

Record Result := {
  summary : string;
  principles : list string;
  variants : list GeneratedMessage;
  voiceNote : string
}.

(** ** Constants (lines 34-50) *)

Definition OTHER_CUSTOM : string := "Other (Custom)".

Definition DELAY_REASONS : list string :=
  [ "Cash flow issues";
    "Waiting for another payment";
    "Medical/Family emergency";
    "Technical error in banking";
    "Forgot in busy schedule";
    "Other (Custom)" ].

Definition PROPOSED_SOLUTIONS : list string :=
  [ "Pay 50% now, rest in 1 week";
    "Clear full amount by next Friday";
    "Need a small discount/waiver";
    "Requesting extra 15 days";
    "Other (Custom)" ].

(** The initial value of the [details] cell (lines 69-83). *)
Definition initialDetails : SituationDetails :=
  {| mode := collect;
     amount := EmptyString;
     overdue := EmptyString;
     relationship := "Client";
     channel := "WhatsApp";
     language := Hinglish;
     customerName := EmptyString;
     yourName := EmptyString;
     otherInfo := EmptyString;
     delayReason := nth 0 DELAY_REASONS EmptyString;
     proposedSolution := nth 0 PROPOSED_SOLUTIONS EmptyString;
     customReason := EmptyString;
     customSolution := EmptyString |}.

(** [{ ...d, mode: m }] (lines 195 and 201). *)
Definition with_mode (m : Mode) (d : SituationDetails) : SituationDetails :=
  {| mode := m;
     amount := amount d;
     overdue := overdue d;
     relationship := relationship d;
     channel := channel d;
     language := language d;
     customerName := customerName d;
     yourName := yourName d;
     otherInfo := otherInfo d;
     delayReason := delayReason d;
     proposedSolution := proposedSolution d;
     customReason := customReason d;
     customSolution := customSolution d |}.

(** ** The request text built by [generateOutput] (lines 106-140) *)

Module Prompt.
Import Js.

Definition finalReason (details : SituationDetails) : string :=
  if String.eqb (delayReason details) "Other (Custom)"
  then customReason details
  else delayReason details.

Definition finalSolution (details : SituationDetails) : string :=
  if String.eqb (proposedSolution details) "Other (Custom)"
  then customSolution details
  else proposedSolution details.

Definition HINGLISH_INSTRUCTION : string :=
  "Use natural Hinglish (mix of simple Hindi + English) in Roman script. Use words like 'bhai', 'sir', 'ma'am', 'yaar' appropriately. Never use Devanagari.".

Definition ENGLISH_INSTRUCTION : string :=
  "Use professional, polite, and warm English. Maintain a helpful and respectful tone.".

Definition languageInstruction (details : SituationDetails) : string :=
  match language details with
  | Hinglish => HINGLISH_INSTRUCTION
  | English => ENGLISH_INSTRUCTION
  end.

(** The template of lines 113-127 around its single hole. *)
Definition systemInstructionOf (languageInstruction : string) : string :=
  "You are an expert in creating polite, high-success-rate payment reminders for India. " ++ LF ++
  "      Language Requirement: " ++ languageInstruction ++ LF ++
  "      Tone: Respectful, professional, friendly, never threatening. Use psychological levers like Reciprocity, Commitment, and Face-saving." ++ LF ++
  "      " ++ LF ++
  "      STRUCTURE RULES:" ++ LF ++
  "      1. Situation summary: 1 short sentence in English." ++ LF ++
  "      2. Key psychological principles: List 3-6 items." ++ LF ++
  "      3. Message Variants:" ++ LF ++
  "         - Variant A: Sabse zyada warm (most empathetic)" ++ LF ++
  "         - Variant B: Reciprocity focus (remind of value/service provided)" ++ LF ++
  "         - Variant C: Soft time sensitivity + easy call-to-action" ++ LF ++
  "         - Variant D: Face-saving excuse (busy life/system error) + positive future." ++ LF ++
  "      4. Voice Note script: Short spoken opener in the selected language." ++ LF ++
  "      " ++ LF ++
  "      IMPORTANT: Ensure all messages end with a clear Call to Action. Length: 80-180 words each. Do not use placeholders like [Your Name] if names are provided.".

Definition systemInstruction (details : SituationDetails) : string :=
  systemInstructionOf (languageInstruction details).

(** The inner template of line 138. *)
Definition negotiateLines (details : SituationDetails) : string :=
  match mode details with
  | negotiate =>
      "Reason for Delay: " ++ finalReason details ++ LF ++
      "Proposed Solution: " ++ finalSolution details
  | collect => EmptyString
  end.

(** The first eight lines of the template of lines 129-140. *)
Definition promptHead (details : SituationDetails) : string :=
  LF ++
  "        Mode: " ++ Mode_str (mode details) ++ LF ++
  "        Amount: " ++ amount details ++ LF ++
  "        Relationship: " ++ relationship details ++ LF ++
  "        Channel: " ++ channel details ++ LF ++
  "        Target Language: " ++ Language_str (language details) ++ LF ++
  "        Customer Name: " ++ or_else (customerName details) "Customer" ++ LF ++
  "        Sender Name: " ++ or_else (yourName details) "Sender" ++ LF ++
  "        How long overdue: " ++ overdue details ++ LF ++
  "        ".

(** Its last two lines. *)
Definition promptTail (details : SituationDetails) : string :=
  LF ++
  "        Additional Context: " ++ otherInfo details ++ LF ++
  "      ".

Definition userPrompt (details : SituationDetails) : string :=
  promptHead details ++ negotiateLines details ++ promptTail details.

End Prompt.

(** ** JSON values and [JSON.parse]

    [generateOutput] stores whatever [JSON.parse] returns, so the stored result
    is a JSON value.  The parser follows the JSON grammar of the platform's
    [JSON.parse]: surrounding white space, the three literals, numbers,
    strings with their escapes, arrays and objects.  Numbers are kept as their
    lexemes; strings are byte strings (UTF-8), a [\u] escape contributes the
    UTF-8 bytes of its code point. *)

Module Json.
Local Open Scope nat_scope.

Inductive json :=
| JNull
| JBool (b : bool)
| JNumber (lexeme : string)
| JString (s : string)
| JArray (items : list json)
| JObject (members : list (string * json)).

(** Property access [j.k]: [None] is [undefined]; of a repeated key the last
    member counts. *)
Fixpoint lookup (k : string) (members : list (string * json)) : option json :=
  match members with
  | [] => None
  | (k', v) :: rest =>
      match lookup k rest with
      | Some v' => Some v'
      | None => if String.eqb k k' then Some v else None
      end
  end.

Definition get (k : string) (j : json) : option json :=
  match j with
  | JObject members => lookup k members
  | _ => None
  end.

(** *** Lexical layer *)

Definition is_ws (c : ascii) : bool :=
  let n := nat_of_ascii c in
  (n =? 32) || (n =? 9) || (n =? 10) || (n =? 13).

Fixpoint skip_ws (s : string) : string :=
  match s with
  | String c r => if is_ws c then skip_ws r else s
  | EmptyString => s
  end.

Definition is_digit (c : ascii) : bool :=
  let n := nat_of_ascii c in (48 <=? n) && (n <=? 57).

Definition hex_val (c : ascii) : option N :=
  let n := N_of_ascii c in
  (if (48 <=? n) && (n <=? 57) then Some (n - 48)
   else if (65 <=? n) && (n <=? 70) then Some (n - 55)
   else if (97 <=? n) && (n <=? 102) then Some (n - 87)
   else None)%N.

(** [expect lit s] strips the literal [lit] from the front of [s]. *)
Fixpoint expect (lit s : string) : option string :=
  match lit with
  | EmptyString => Some s
  | String c lit' =>
      match s with
      | String c' s' => if Ascii.eqb c c' then expect lit' s' else None
      | EmptyString => None
      end
  end.

(** The longest run of digits at the front of [s], and what follows it. *)
Fixpoint digits (s : string) : string * string :=
  match s with
  | String c r =>
      if is_digit c
      then let '(ds, rest) := digits r in (String c ds, rest)
      else (EmptyString, s)
  | EmptyString => (EmptyString, s)
  end.

Definition digits1 (s : string) : option (string * string) :=
  match digits s with
  | (EmptyString, _) => None
  | (ds, rest) => Some (ds, rest)
  end.

(** Number lexemes: an optional minus sign, an integer part (a single zero,
    or digits not starting with zero), an optional fraction (a dot and at
    least one digit), an optional exponent (e or E, an optional sign, at
    least one digit). *)
Definition lex_int (s : string) : option (string * string) :=
  match s with
  | String c r =>
      if Ascii.eqb c "0" then Some (String c EmptyString, r)
      else digits1 s
  | EmptyString => None
  end.

Definition lex_frac (s : string) : option (string * string) :=
  match s with
  | String c r =>
      if Ascii.eqb c "."
      then match digits1 r with
           | Some (ds, rest) => Some (String c ds, rest)
           | None => None
           end
      else Some (EmptyString, s)
  | EmptyString => Some (EmptyString, s)
  end.

Definition lex_sign (s : string) : string * string :=
  match s with
  | String c r =>
      if Ascii.eqb c "+" || Ascii.eqb c "-"
      then (String c EmptyString, r)
      else (EmptyString, s)
  | EmptyString => (EmptyString, s)
  end.

Definition lex_exp (s : string) : option (string * string) :=
  match s with
  | String c r =>
      if Ascii.eqb c "e" || Ascii.eqb c "E"
      then let '(sg, r1) := lex_sign r in
           match digits1 r1 with
           | Some (ds, rest) => Some (String c (sg ++ ds), rest)
           | None => None
           end
      else Some (EmptyString, s)
  | EmptyString => Some (EmptyString, s)
  end.

Definition lex_number (s : string) : option (string * string) :=
  let '(minus, s0) :=
    match s with
    | String c r =>
        if Ascii.eqb c "-" then (String c EmptyString, r) else (EmptyString, s)
    | EmptyString => (EmptyString, s)
    end in
  match lex_int s0 with
  | Some (i, s1) =>
      match lex_frac s1 with
      | Some (f, s2) =>
          match lex_exp s2 with
          | Some (e, s3) => Some ((minus ++ i ++ f ++ e)%string, s3)
          | None => None
          end
      | None => None
      end
  | None => None
  end.

(** *** Strings *)

(** A string body is a sequence of raw bytes and escaped UTF-16 units. *)
Inductive piece :=
| Raw (c : ascii)
| Unit16 (u : N).

(** The body of a string literal, up to and without its closing quote. *)
Fixpoint lex_chars (s : string) : option (list piece * string) :=
  let cons p r :=
    match lex_chars r with
    | Some (ps, rest) => Some (p :: ps, rest)
    | None => None
    end in
  match s with
  | EmptyString => None
  | String c r =>
      if Ascii.eqb c "034" then Some ([], r)
      else if Ascii.eqb c "\" then
        match r with
        | String e r1 =>
            if Ascii.eqb e "034" then cons (Raw "034"%char) r1
            else if Ascii.eqb e "\" then cons (Raw "\"%char) r1
            else if Ascii.eqb e "/" then cons (Raw "/"%char) r1
            else if Ascii.eqb e "b" then cons (Raw "008"%char) r1
            else if Ascii.eqb e "f" then cons (Raw "012"%char) r1
            else if Ascii.eqb e "n" then cons (Raw "010"%char) r1
            else if Ascii.eqb e "r" then cons (Raw "013"%char) r1
            else if Ascii.eqb e "t" then cons (Raw "009"%char) r1
            else if Ascii.eqb e "u" then
              match r1 with
              | String h1 (String h2 (String h3 (String h4 r2))) =>
                  match hex_val h1, hex_val h2, hex_val h3, hex_val h4 with
                  | Some a, Some b, Some c', Some d =>
                      cons (Unit16 (((a * 16 + b) * 16 + c') * 16 + d)%N) r2
                  | _, _, _, _ => None
                  end
              | _ => None
              end
            else None
        | EmptyString => None
        end
      else if nat_of_ascii c <? 32 then None
      else cons (Raw c) r
  end.

Definition byte (n : N) : ascii := ascii_of_N n.

(** UTF-8 of a code point below 0x110000. *)
Definition utf8 (cp : N) : string :=
  (if cp <? 128 then String (byte cp) EmptyString
   else if cp <? 2048 then
     String (byte (192 + cp / 64)) (String (byte (128 + cp mod 64)) EmptyString)
   else if cp <? 65536 then
     String (byte (224 + cp / 4096))
       (String (byte (128 + (cp / 64) mod 64))
          (String (byte (128 + cp mod 64)) EmptyString))
   else
     String (byte (240 + cp / 262144))
       (String (byte (128 + (cp / 4096) mod 64))
          (String (byte (128 + (cp / 64) mod 64))
             (String (byte (128 + cp mod 64)) EmptyString))))%N.

Definition is_high (u : N) : bool := ((55296 <=? u) && (u <=? 56319))%N.
Definition is_low (u : N) : bool := ((56320 <=? u) && (u <=? 57343))%N.

(** A high surrogate followed by a low one is one code point. *)
Fixpoint encode (ps : list piece) : string :=
  match ps with
  | [] => EmptyString
  | Raw c :: rest => String c (encode rest)
  | Unit16 u :: rest =>
      match rest with
      | Unit16 v :: rest' =>
          if is_high u && is_low v
          then utf8 (65536 + (u - 55296) * 1024 + (v - 56320))%N ++ encode rest'
          else utf8 u ++ encode rest
      | _ => utf8 u ++ encode rest
      end
  end.

(** A string literal after its opening quote. *)
Definition lex_string (s : string) : option (string * string) :=
  match lex_chars s with
  | Some (ps, rest) => Some (encode ps, rest)
  | None => None
  end.

(** *** Grammar *)

Section Sequences.
(** The value parser one nesting level down. *)
Variable value : string -> option (json * string).

(** The elements of an array after its first bracket, when it is not
    empty: values separated by commas, up to the closing bracket. *)
Fixpoint elements (n : nat) (s : string) : option (list json * string) :=
  match n with
  | O => None
  | S n' =>
      match value s with
      | Some (v, r) =>
          match skip_ws r with
          | String c r' =>
              if Ascii.eqb c "," then
                match elements n' r' with
                | Some (vs, rest) => Some (v :: vs, rest)
                | None => None
                end
              else if Ascii.eqb c "]" then Some ([v], r')
              else None
          | EmptyString => None
          end
      | None => None
      end
  end.

(** The members of a non-empty object: a quoted key, a colon, a value. *)
Fixpoint members (n : nat) (s : string) : option (list (string * json) * string) :=
  match n with
  | O => None
  | S n' =>
      match skip_ws s with
      | String q r0 =>
          if Ascii.eqb q "034" then
            match lex_string r0 with
            | Some (k, r1) =>
                match skip_ws r1 with
                | String colon r2 =>
                    if Ascii.eqb colon ":" then
                      match value r2 with
                      | Some (v, r3) =>
                          match skip_ws r3 with
                          | String c r4 =>
                              if Ascii.eqb c "," then
                                match members n' r4 with
                                | Some (ms, rest) => Some ((k, v) :: ms, rest)
                                | None => None
                                end
                              else if Ascii.eqb c "}" then Some ([(k, v)], r4)
                              else None
                          | EmptyString => None
                          end
                      | None => None
                      end
                    else None
                | EmptyString => None
                end
            | None => None
            end
          else None
      | EmptyString => None
      end
  end.
End Sequences.

(** One value, after optional white space; the fuel bounds the nesting
    depth and the number of items of a sequence. *)
Fixpoint value (fuel : nat) (s : string) : option (json * string) :=
  match fuel with
  | O => None
  | S fuel' =>
      match skip_ws s with
      | EmptyString => None
      | String c r =>
          if Ascii.eqb c "{" then
            match skip_ws r with
            | String c' r' =>
                if Ascii.eqb c' "}" then Some (JObject [], r')
                else
                  match members (value fuel') fuel' r with
                  | Some (ms, rest) => Some (JObject ms, rest)
                  | None => None
                  end
            | EmptyString => None
            end
          else if Ascii.eqb c "[" then
            match skip_ws r with
            | String c' r' =>
                if Ascii.eqb c' "]" then Some (JArray [], r')
                else
                  match elements (value fuel') fuel' r with
                  | Some (vs, rest) => Some (JArray vs, rest)
                  | None => None
                  end
            | EmptyString => None
            end
          else if Ascii.eqb c "034" then
            match lex_string r with
            | Some (str, rest) => Some (JString str, rest)
            | None => None
            end
          else if Ascii.eqb c "t" then
            match expect "rue" r with
            | Some rest => Some (JBool true, rest)
            | None => None
            end
          else if Ascii.eqb c "f" then
            match expect "alse" r with
            | Some rest => Some (JBool false, rest)
            | None => None
            end
          else if Ascii.eqb c "n" then
            match expect "ull" r with
            | Some rest => Some (JNull, rest)
            | None => None
            end
          else
            match lex_number (String c r) with
            | Some (lexeme, rest) => Some (JNumber lexeme, rest)
            | None => None
            end
      end
  end.

(** [JSON.parse(text)]: [None] stands for the [SyntaxError] it throws.  No
    value nests deeper, or has more items, than the text has characters. *)
Definition parse (text : string) : option json :=
  match value (S (String.length text)) text with
  | Some (v, rest) =>
      match skip_ws rest with
      | EmptyString => Some v
      | String _ _ => None
      end
  | None => None
  end.

(** *** The [Result] shape (lines 21-32) *)

Definition as_string (j : json) : option string :=
  match j with
  | JString s => Some s
  | _ => None
  end.

(** [Some] of the images when every item has one. *)
Fixpoint all_map {A B} (f : A -> option B) (l : list A) : option (list B) :=
  match l with
  | [] => Some []
  | x :: l' =>
      match f x, all_map f l' with
      | Some y, Some ys => Some (y :: ys)
      | _, _ => None
      end
  end.

Definition as_array {B} (f : json -> option B) (j : json) : option (list B) :=
  match j with
  | JArray items => all_map f items
  | _ => None
  end.

Definition field {B} (k : string) (f : json -> option B) (j : json) : option B :=
  match get k j with
  | Some v => f v
  | None => None
  end.

Definition as_GeneratedMessage (j : json) : option GeneratedMessage :=
  match field "variant" as_string j, field "title" as_string j,
        field "content" as_string j with
  | Some v, Some t, Some c => Some {| variant := v; title := t; content := c |}
  | _, _, _ => None
  end.

(** The value read at type [Result]: an object with a string [summary], an
    array of strings [principles], an array of messages [variants] and a
    string [voiceNote]. *)
Definition as_Result (j : json) : option Result :=
  match field "summary" as_string j,
        field "principles" (as_array as_string) j,
        field "variants" (as_array as_GeneratedMessage) j,
        field "voiceNote" as_string j with
  | Some s, Some ps, Some vs, Some n =>
      Some {| summary := s; principles := ps; variants := vs; voiceNote := n |}
  | _, _, _, _ => None
  end.

Definition conforms (j : json) : bool :=
  match as_Result j with
  | Some _ => true
  | None => false
  end.

(** A parser that consumes input whenever it succeeds. *)
Definition consumes {A} (pv : string -> option (A * string)) : Prop :=
  forall s v r, pv s = Some (v, r) -> String.length r < String.length s.

(** Two value parsers that agree on every input no longer than [s]. *)
Definition agree_upto (s : string) (pv pv' : string -> option (json * string)) : Prop :=
  forall s', String.length s' <= String.length s -> pv s' = pv' s'.

End Json.

(** ** Numbers of a parsed value

    [JSON.parse] turns a number lexeme into the nearest double, ties to
    even, and the view shows and concatenates numbers as [Number::toString]
    prints them: the shortest decimal that denotes the same double.  Both
    are computed here with exact integer arithmetic. *)

Module JsNumber.
Local Open Scope Z_scope.

(** A double that is not NaN, up to its sign: zero, infinity, or
    [mant * 2 ^ expo] with [2^52 <= mant < 2^53] and [-1074 <= expo <= 971],
    or [0 < mant < 2^52] and [expo = -1074]. *)
Inductive double :=
| Zero
| Infinity
| Finite (mant expo : Z).

Definition double_eqb (a b : double) : bool :=
  match a, b with
  | Zero, Zero => true
  | Infinity, Infinity => true
  | Finite m e, Finite m' e' => (m =? m') && (e =? e')
  | _, _ => false
  end.

(** [num / den >= 2 ^ t], for positive [num] and [den]. *)
Definition ge_pow2 (num den t : Z) : bool :=
  if 0 <=? t then den * 2 ^ t <=? num else den <=? num * 2 ^ (- t).

(** [num / (den * 2 ^ e)] as a fraction of integers. *)
Definition scale2 (num den e : Z) : Z * Z :=
  if 0 <=? e then (num, den * 2 ^ e) else (num * 2 ^ (- e), den).

(** The nearest integer, ties to even. *)
Definition round_half_even (n d : Z) : Z :=
  let q := n / d in
  let r := n mod d in
  match 2 * r ?= d with
  | Lt => q
  | Gt => q + 1
  | Eq => if Z.even q then q else q + 1
  end.

(** The double nearest to the positive rational [num / den]. *)
Definition round_to_double (num den : Z) : double :=
  let t := Z.log2 num - Z.log2 den in
  let l := if ge_pow2 num den t then t else t - 1 in
  let e := Z.max (l - 52) (-1074) in
  let '(n, d) := scale2 num den e in
  let m := round_half_even n d in
  let '(m, e) := if m =? 2 ^ 53 then (2 ^ 52, e + 1) else (m, e) in
  if m =? 0 then Zero
  else if 971 <? e then Infinity
  else Finite m e.

(** [m * 10 ^ e] as a fraction of integers. *)
Definition scale10 (m e : Z) : Z * Z :=
  if 0 <=? e then (m * 10 ^ e, 1) else (m, 10 ^ (- e)).

(** *** From a JSON lexeme *)

Fixpoint digits_value (s : string) (acc : Z) : Z :=
  match s with
  | EmptyString => acc
  | String c r => digits_value r (10 * acc + (Z.of_nat (nat_of_ascii c) - 48))
  end.

Fixpoint strip_zeros (s : string) : string :=
  match s with
  | String c r => if Ascii.eqb c "0" then strip_zeros r else s
  | EmptyString => s
  end.

(** The parts of a number lexeme: whether it has a minus sign, the digits
    of its integer part and of its fraction, and its exponent. *)
Definition decompose (lexeme : string) : bool * string * string * Z :=
  let '(neg, s0) :=
    match lexeme with
    | String c r => if Ascii.eqb c "-" then (true, r) else (false, lexeme)
    | EmptyString => (false, lexeme)
    end in
  let '(int, s1) := Json.digits s0 in
  let '(frac, s2) :=
    match s1 with
    | String c r => if Ascii.eqb c "." then Json.digits r else (EmptyString, s1)
    | EmptyString => (EmptyString, s1)
    end in
  let exp :=
    match s2 with
    | String _ r =>
        match r with
        | String c r' =>
            if Ascii.eqb c "-" then - digits_value r' 0
            else if Ascii.eqb c "+" then digits_value r' 0
            else digits_value r 0
        | EmptyString => 0
        end
    | EmptyString => 0
    end in
  (neg, int, frac, exp).

(** The double a number lexeme denotes, and its sign. *)
Definition of_lexeme (lexeme : string) : bool * double :=
  let '(neg, int, frac, exp) := decompose lexeme in
  let ds := strip_zeros (int ++ frac) in
  let m := digits_value ds 0 in
  let e := exp - Z.of_nat (String.length frac) in
  let top := Z.of_nat (String.length ds) + e in
  (neg,
   if m =? 0 then Zero
   else if 310 <? top then Infinity
   else if top <? -325 then Zero
   else let '(n, d) := scale10 m e in round_to_double n d).

(** *** [Number::toString] *)

(** The least [n] above [n0] with [num / den < 10 ^ n], for a fraction that
    is at least 1; [pw] is [10 ^ n0]. *)
Fixpoint magnitude_up (fuel : nat) (num den pw n0 : Z) : Z :=
  match fuel with
  | O => n0
  | S fuel' =>
      if num <? den * pw then n0
      else magnitude_up fuel' num den (10 * pw) (n0 + 1)
  end.

(** The same for a fraction below 1: the least [n], at most [n0], with
    [num / den < 10 ^ n]; [pw] is [10 ^ (- n0)]. *)
Fixpoint magnitude_down (fuel : nat) (num den pw n0 : Z) : Z :=
  match fuel with
  | O => n0
  | S fuel' =>
      if num * (10 * pw) <? den
      then magnitude_down fuel' num den (10 * pw) (n0 - 1)
      else n0
  end.

(** The least [n] with [num / den < 10 ^ n]; doubles lie between
    [10 ^ -324] and [10 ^ 309]. *)
Definition magnitude (num den : Z) : Z :=
  if den <=? num then magnitude_up 400 num den 1 0
  else magnitude_down 400 num den 1 0.

(** The shortest decimal [s * 10 ^ (n - k)], with [k] digits in [s], whose
    nearest double is [Finite m e]; of several the nearest, of two equally
    near the even one. *)
Fixpoint shortest (fuel : nat) (k : Z) (m e n : Z) : Z * Z :=
  let '(num, den) := scale2 m 1 (- e) in
  let p := n - k in
  let '(a, b) := scale10 1 p in
  let ny := num * b in
  let dy := den * a in
  let lo := ny / dy in
  let r := ny mod dy in
  let back c := let '(cn, cd) := scale10 c p in
                double_eqb (round_to_double cn cd) (Finite m e) in
  let pick c := if c =? 10 ^ k then (1, n + 1) else (c, n) in
  match fuel with
  | O => pick lo
  | S fuel' =>
      if r =? 0 then pick lo
      else
        let bl := back lo in
        let bh := back (lo + 1) in
        if bl && bh then
          match 2 * r ?= dy with
          | Lt => pick lo
          | Gt => pick (lo + 1)
          | Eq => if Z.even lo then pick lo else pick (lo + 1)
          end
        else if bl then pick lo
        else if bh then pick (lo + 1)
        else shortest fuel' (k + 1) m e n
  end.

Definition decimal (z : Z) : string :=
  NilZero.string_of_uint (N.to_uint (Z.to_N z)).

Fixpoint zeros (n : nat) : string :=
  match n with
  | O => EmptyString
  | S n' => String "0" (zeros n')
  end.

(** The text of a positive number with digits [s] and decimal point after
    [n] digits. *)
Definition layout (s : string) (n : Z) : string :=
  let k := Z.of_nat (String.length s) in
  if (k <=? n) && (n <=? 21) then s ++ zeros (Z.to_nat (n - k))
  else if (0 <? n) && (n <=? 21) then
    substring 0 (Z.to_nat n) s ++ "." ++
    substring (Z.to_nat n) (Z.to_nat (k - n)) s
  else if (-6 <? n) && (n <=? 0) then "0." ++ zeros (Z.to_nat (- n)) ++ s
  else
    let e := n - 1 in
    let sign := if e <? 0 then "-" else "+" in
    let digits :=
      match s with
      | String c EmptyString => s
      | String c r => String c ("." ++ r)
      | EmptyString => s
      end in
    digits ++ "e" ++ sign ++ decimal (Z.abs e).

Definition double_to_string (neg : bool) (x : double) : string :=
  match x with
  | Zero => "0"
  | Infinity => if neg then "-Infinity" else "Infinity"
  | Finite m e =>
      let '(num, den) := scale2 m 1 (- e) in
      let n := magnitude num den in
      let '(s, n') := shortest 17 1 m e n in
      (if neg then "-" else EmptyString) ++ layout (decimal s) n'
  end.

(** [String(JSON.parse(lexeme))] *)
Definition to_string (lexeme : string) : string :=
  let '(neg, x) := of_lexeme lexeme in double_to_string neg x.

(** Whether [JSON.parse(lexeme)] is zero. *)
Definition is_zero (lexeme : string) : bool :=
  match snd (of_lexeme lexeme) with
  | Zero => true
  | _ => false
  end.

End JsNumber.

(** ** How the view reads a stored value (lines 313-368)

    The stored result is whatever [JSON.parse] returned.  The view tests it
    with [&&], reads its properties, maps over [principles] and [variants],
    puts values in the page as children of elements and builds the identity
    of a card with a template literal. *)

Module View.
Import Json.

(** [x && ...]: [null], [false], zero and the empty string are falsy. *)
Definition truthy (j : json) : bool :=
  match j with
  | JNull => false
  | JBool b => b
  | JNumber lexeme => negb (JsNumber.is_zero lexeme)
  | JString s => negb (Js.falsy s)
  | JArray _ => true
  | JObject _ => true
  end.

(** [String(x)], the conversion of a template literal and of the argument
    of [writeText]; [None] is the [TypeError] thrown for an object whose own
    [toString] property hides the method.  An array is joined with commas,
    [null] elements counting as empty. *)
Fixpoint to_string (j : json) : option string :=
  match j with
  | JNull => Some "null"
  | JBool b => Some (if b then "true" else "false")
  | JNumber lexeme => Some (JsNumber.to_string lexeme)
  | JString s => Some s
  | JArray items =>
      (fix join (l : list json) : option string :=
         match l with
         | [] => Some EmptyString
         | x :: l' =>
             let head :=
               match x with
               | JNull => Some EmptyString
               | _ => to_string x
               end in
             match head, join l' with
             | Some a, Some b =>
                 Some (match l' with
                       | [] => a
                       | _ :: _ => a ++ "," ++ b
                       end)%string
             | _, _ => None
             end
         end) items
  | JObject members =>
      match lookup "toString" members with
      | Some _ => None
      | None => Some "[object Object]"
      end
  end.

(** The same for a property that may be missing. *)
Definition to_string_value (v : option json) : option string :=
  match v with
  | None => Some "undefined"
  | Some j => to_string j
  end.

(** Whether React accepts the value as a child of an element: strings and
    numbers are text, [null], [undefined] and booleans show nothing, an
    array is the sequence of its elements, and an object is refused (React
    throws). *)
Fixpoint child_ok (j : json) : bool :=
  match j with
  | JObject _ => false
  | JArray items =>
      (fix all (l : list json) : bool :=
         match l with
         | [] => true
         | x :: l' => child_ok x && all l'
         end) items
  | _ => true
  end.

Definition child_ok_value (v : option json) : bool :=
  match v with
  | None => true
  | Some j => child_ok j
  end.

(** The text an accepted child shows. *)
Fixpoint child_text (j : json) : string :=
  match j with
  | JString s => s
  | JNumber lexeme => JsNumber.to_string lexeme
  | JArray items =>
      (fix all (l : list json) : string :=
         match l with
         | [] => EmptyString
         | x :: l' => (child_text x ++ all l')%string
         end) items
  | _ => EmptyString
  end.

Definition child_text_value (v : option json) : string :=
  match v with
  | None => EmptyString
  | Some j => child_text j
  end.

(** The card of one element [v] of [result.variants] (lines 334-354), with
    the strings its copy button uses: [variant] is [`${v.variant}`], the
    label as it enters the card's identity; [title] is the title as shown;
    [content] is [v.content] as [writeText] receives it.  [None] when
    rendering the card throws: [v] is [null], a field is no valid child, or
    the template literal throws. *)
Definition card_of (v : json) : option GeneratedMessage :=
  match v with
  | JNull => None
  | _ =>
      if child_ok_value (get "variant" v) && child_ok_value (get "title" v) &&
         child_ok_value (get "content" v)
      then
        match to_string_value (get "variant" v),
              to_string_value (get "content" v) with
        | Some label, Some text =>
            Some {| variant := label;
                    title := child_text_value (get "title" v);
                    content := text |}
        | _, _ => None
        end
      else None
  end.

(** The cards of the result section (lines 313-368); [None] when rendering
    throws.  A falsy result shows no section.  Otherwise [principles] and
    [variants] must be arrays, for [.map] to be callable, and every value
    put in the page must be a valid child. *)
Definition render_result (result : json) : option (list GeneratedMessage) :=
  if truthy result then
    if child_ok_value (get "summary" result) &&
       child_ok_value (get "voiceNote" result)
    then
      match get "principles" result, get "variants" result with
      | Some (JArray ps), Some (JArray vs) =>
          if forallb child_ok ps then all_map card_of vs else None
      | _, _ => None
      end
    else None
  else Some [].

End View.

(** ** The generation boundary ([ai.models.generateContent], lines 142-170) *)

Module GenAI.

(** [Type.STRING], [Type.ARRAY] and [Type.OBJECT] schemas. *)
Inductive Schema :=
| STRING
| ARRAY (items : Schema)
| OBJECT (properties : list (string * Schema)) (required : list string).

Record Config := {
  systemInstruction : string;
  responseMimeType : string;
  responseSchema : Schema
}.

(** One call: the key the client was built with and the call's argument. *)
Record Request := {
  apiKey : string;
  model : string;
  contents : string;
  config : Config
}.

(** [response.text] is a string or [undefined]. *)
Record Response := {
  text : option string
}.

(** What a [catch] clause may receive. *)
Inductive Exn :=
| Rejected (reason : string)
| SyntaxError.

(** How a call settles: the promise rejects or resolves. *)
Definition Outcome : Type := Exn + Response.

End GenAI.

(** ** Component state and effects *)

Import Json GenAI.

(** The five [useState] cells of [App] (lines 69-87); [JNull] is [null]. *)
Record AppState := {
  details : SituationDetails;
  loading : bool;
  result : json;
  error : option string;
  copiedId : option string
}.

Definition initialApp : AppState :=
  {| details := initialDetails;
     loading := false;
     result := JNull;
     error := None;
     copiedId := None |}.

(** Calls of the state setters. *)
Inductive Update :=
| SetDetails (f : SituationDetails -> SituationDetails)
| SetLoading (b : bool)
| SetResult (r : json)
| SetError (e : option string)
| SetCopiedId (c : option string).

(** Effects of a handler: setter calls and calls of the platform. *)
Inductive Effect :=
| Upd (u : Update)
| ConsoleError (err : Exn)
| ClipboardWriteText (text : string)
| SetTimeout (callback : list Update) (ms : nat).

(** Handlers are programs over these effects that may throw and may await
    the generation boundary. *)
Inductive M (A : Type) : Type :=
| Ret (a : A)
| Throw (e : Exn)
| Do (eff : Effect) (k : M A)
| Await (req : Request) (k : Outcome -> M A).

Arguments Ret {A} a.
Arguments Throw {A} e.
Arguments Do {A} eff k.
Arguments Await {A} req k.

Fixpoint bind {A B} (m : M A) (f : A -> M B) : M B :=
  match m with
  | Ret a => f a
  | Throw e => Throw e
  | Do eff k => Do eff (bind k f)
  | Await req k => Await req (fun o => bind (k o) f)
  end.

Declare Scope js_scope.
Delimit Scope js_scope with js.
Notation "x <- m ;; k" := (bind m (fun x => k))
  (at level 61, m at next level, right associativity) : js_scope.
Notation "m ;; k" := (bind m (fun _ => k))
  (at level 61, right associativity) : js_scope.

(** [try { body } catch (err) { handler err }] *)
Fixpoint try_catch {A} (body : M A) (handler : Exn -> M A) : M A :=
  match body with
  | Ret a => Ret a
  | Throw e => handler e
  | Do eff k => Do eff (try_catch k handler)
  | Await req k => Await req (fun o => try_catch (k o) handler)
  end.

(** [try { body } finally { fin }] *)
Fixpoint try_finally {A} (body : M A) (fin : M unit) : M A :=
  match body with
  | Ret a => bind fin (fun _ => Ret a)
  | Throw e => bind fin (fun _ => Throw e)
  | Do eff k => Do eff (try_finally k fin)
  | Await req k => Await req (fun o => try_finally (k o) fin)
  end.

Definition try_catch_finally {A} (body : M A) (handler : Exn -> M A)
    (fin : M unit) : M A :=
  try_finally (try_catch body handler) fin.

Definition do_ (eff : Effect) : M unit := Do eff (Ret tt).

Definition setDetails f : M unit := do_ (Upd (SetDetails f)).
Definition setLoading b : M unit := do_ (Upd (SetLoading b)).
Definition setResult r : M unit := do_ (Upd (SetResult r)).
Definition setError e : M unit := do_ (Upd (SetError e)).
Definition setCopiedId c : M unit := do_ (Upd (SetCopiedId c)).
Definition console_error err : M unit := do_ (ConsoleError err).
Definition clipboard_writeText t : M unit := do_ (ClipboardWriteText t).
Definition setTimeout cb ms : M unit := do_ (SetTimeout cb ms).

(** [await ai.models.generateContent(...)]: a rejection is thrown at the
    [await]. *)
Definition generateContent (req : Request) : M Response :=
  Await req (fun o =>
    match o with
    | inl err => Throw err
    | inr response => Ret response
    end).

(** [JSON.parse(text)] as a step of a handler. *)
Definition JSON_parse (text : string) : M json :=
  match Json.parse text with
  | Some v => Ret v
  | None => Throw SyntaxError
  end.

(** ** The handlers of [App] *)

(** The named inputs of the form (lines 214-283).  Every one writes a string
    field, except the language select, whose two options are the two
    [Language] values. *)
Inductive TextField :=
| f_amount | f_relationship | f_channel | f_overdue | f_customerName
| f_yourName | f_delayReason | f_customReason | f_proposedSolution
| f_customSolution.

Inductive ChangeEvent :=
| TextChange (name : TextField) (value : string)
| LanguageChange (value : Language).

(** [{ ...prev, [name]: value }] (line 91). *)
Definition assign (e : ChangeEvent) (prev : SituationDetails) : SituationDetails :=
  let text (f : TextField -> bool) (old : string) : string :=
    match e with
    | TextChange name value => if f name then value else old
    | LanguageChange _ => old
    end in
  {| mode := mode prev;
     amount := text (fun n => match n with f_amount => true | _ => false end) (amount prev);
     overdue := text (fun n => match n with f_overdue => true | _ => false end) (overdue prev);
     relationship :=
       text (fun n => match n with f_relationship => true | _ => false end) (relationship prev);
     channel := text (fun n => match n with f_channel => true | _ => false end) (channel prev);
     language :=
       match e with
       | LanguageChange value => value
       | TextChange _ _ => language prev
       end;
     customerName :=
       text (fun n => match n with f_customerName => true | _ => false end) (customerName prev);
     yourName := text (fun n => match n with f_yourName => true | _ => false end) (yourName prev);
     otherInfo := otherInfo prev;
     delayReason :=
       text (fun n => match n with f_delayReason => true | _ => false end) (delayReason prev);
     proposedSolution :=
       text (fun n => match n with f_proposedSolution => true | _ => false end)
         (proposedSolution prev);
     customReason :=
       text (fun n => match n with f_customReason => true | _ => false end) (customReason prev);
     customSolution :=
       text (fun n => match n with f_customSolution => true | _ => false end)
         (customSolution prev) |}.

Section Handlers.
Local Open Scope js_scope.

(** Lines 89-92. *)
Definition handleInputChange (e : ChangeEvent) : M unit :=
  setDetails (fun prev => assign e prev).

(** The schema literal of lines 148-168. *)
Definition responseSchemaLiteral : Schema :=
  OBJECT
    [ ("summary", STRING);
      ("principles", ARRAY STRING);
      ("variants",
        ARRAY (OBJECT
                 [ ("variant", STRING); ("title", STRING); ("content", STRING) ]
                 [ "variant"; "title"; "content" ]));
      ("voiceNote", STRING) ]
    [ "summary"; "principles"; "variants"; "voiceNote" ].

(** The argument of the call of line 142, by the client of line 105;
    [API_KEY] is [process.env.API_KEY]. *)
Definition request (API_KEY : option string) (details : SituationDetails) : Request :=
  {| apiKey := Js.opt_or_else API_KEY EmptyString;
     model := "gemini-3-flash-preview";
     contents := Prompt.userPrompt details;
     config :=
       {| systemInstruction := Prompt.systemInstruction details;
          responseMimeType := "application/json";
          responseSchema := responseSchemaLiteral |} |}.

Definition VALIDATION_ERROR : string := "Please enter the amount.".

Definition GENERIC_ERROR : string :=
  "Something went wrong. Please check your inputs and try again.".

(** Lines 94-180; [details] is the record the handler closes over. *)
Definition generateOutput (API_KEY : option string) (details : SituationDetails)
    : M unit :=
  if Js.falsy (amount details) then
    setError (Some VALIDATION_ERROR)
  else
    setLoading true ;;
    setError None ;;
    setResult JNull ;;
    try_catch_finally
      (response <- generateContent (request API_KEY details) ;;
       parsedResult <- JSON_parse (Js.opt_or_else (text response) "{}") ;;
       setResult parsedResult)
      (fun err =>
         console_error err ;;
         setError (Some GENERIC_ERROR))
      (setLoading false).

(** Lines 182-186. *)
Definition copyToClipboard (text id : string) : M unit :=
  clipboard_writeText text ;;
  setCopiedId (Some id) ;;
  setTimeout [SetCopiedId None] 2000.

(** The [onClick] of the two mode buttons (lines 195 and 201). *)
Definition selectMode (m : Mode) : M unit :=
  setDetails (fun d => with_mode m d) ;;
  setResult JNull.

(** The identity of the card of [v] at index [i] (lines 341-344). *)
Definition cardId (v : GeneratedMessage) (i : nat) : string :=
  variant v ++ "-" ++ Js.of_index i.

(** The [onClick] of its copy button (line 341). *)
Definition copyCard (v : GeneratedMessage) (i : nat) : M unit :=
  copyToClipboard (content v) (cardId v i).

End Handlers.

(** ** The page: component state, platform state and the event loop *)

Definition update (u : Update) (a : AppState) : AppState :=
  match u with
  | SetDetails f =>
      {| details := f (details a); loading := loading a; result := result a;
         error := error a; copiedId := copiedId a |}
  | SetLoading b =>
      {| details := details a; loading := b; result := result a;
         error := error a; copiedId := copiedId a |}
  | SetResult r =>
      {| details := details a; loading := loading a; result := r;
         error := error a; copiedId := copiedId a |}
  | SetError e =>
      {| details := details a; loading := loading a; result := result a;
         error := e; copiedId := copiedId a |}
  | SetCopiedId c =>
      {| details := details a; loading := loading a; result := result a;
         error := error a; copiedId := c |}
  end.

Definition updates (us : list Update) (a : AppState) : AppState :=
  fold_left (fun a u => update u a) us a.

(** A timer set by [setTimeout] and not fired yet. *)
Record Timer := {
  tid : nat;
  due : nat;
  callback : list Update
}.

Record Page := {
  app : AppState;
  API_KEY : option string;              (* process.env.API_KEY *)
  sent : list Request;                  (* calls made so far *)
  pending : list (Outcome -> M unit);   (* handlers suspended at an await *)
  clipboard : option string;
  timers : list Timer;
  nextTimer : nat;
  clock : nat;                          (* milliseconds *)
  console : list Exn
}.

Definition initialPage (key : option string) : Page :=
  {| app := initialApp; API_KEY := key; sent := []; pending := [];
     clipboard := None; timers := []; nextTimer := 0; clock := 0;
     console := [] |}.

Definition perform (eff : Effect) (p : Page) : Page :=
  match eff with
  | Upd u =>
      {| app := update u (app p); API_KEY := API_KEY p; sent := sent p;
         pending := pending p; clipboard := clipboard p; timers := timers p;
         nextTimer := nextTimer p; clock := clock p; console := console p |}
  | ConsoleError err =>
      {| app := app p; API_KEY := API_KEY p; sent := sent p;
         pending := pending p; clipboard := clipboard p; timers := timers p;
         nextTimer := nextTimer p; clock := clock p;
         console := console p ++ [err] |}
  | ClipboardWriteText t =>
      {| app := app p; API_KEY := API_KEY p; sent := sent p;
         pending := pending p; clipboard := Some t; timers := timers p;
         nextTimer := nextTimer p; clock := clock p; console := console p |}
  | SetTimeout cb ms =>
      {| app := app p; API_KEY := API_KEY p; sent := sent p;
         pending := pending p; clipboard := clipboard p;
         timers := timers p ++
           [{| tid := nextTimer p; due := clock p + ms; callback := cb |}];
         nextTimer := S (nextTimer p); clock := clock p; console := console p |}
  end.

(** A handler runs until it returns, throws or reaches an [await]; at an
    [await] the call is made and the rest of the handler is suspended. *)
Fixpoint exec (h : M unit) (p : Page) : Page :=
  match h with
  | Ret _ => p
  | Throw _ => p
  | Do eff k => exec k (perform eff p)
  | Await req k =>
      {| app := app p; API_KEY := API_KEY p; sent := sent p ++ [req];
         pending := pending p ++ [k]; clipboard := clipboard p;
         timers := timers p; nextTimer := nextTimer p; clock := clock p;
         console := console p |}
  end.

(** *** What the view offers *)

(** [disabled={loading}] on the generate button (line 291). *)
Definition generateDisabled (a : AppState) : bool := loading a.

(** Whether the component renders: the result section is the one part of
    the view that can throw (lines 313-368).  When it throws, React unmounts
    the component and the page shows nothing. *)
Definition renders (a : AppState) : bool :=
  match View.render_result (result a) with
  | Some _ => true
  | None => false
  end.

(** The cards of [result.variants.map] (lines 333-355), each with a copy
    button; none when the result is falsy or rendering throws. *)
Definition cards (a : AppState) : list GeneratedMessage :=
  match View.render_result (result a) with
  | Some cs => cs
  | None => []
  end.

(** *** Events *)

Inductive Event :=
| Change (e : ChangeEvent)
| ClickCollect
| ClickNegotiate
| ClickGenerate
| ClickCopy (i : nat)
| Settle (n : nat) (o : Outcome)
| TimerFires (id : nat)
| Tick (ms : nat).

Fixpoint remove_nth {A} (n : nat) (l : list A) : list A :=
  match n, l with
  | _, [] => []
  | O, _ :: l' => l'
  | S n', x :: l' => x :: remove_nth n' l'
  end.

Definition with_pending (ks : list (Outcome -> M unit)) (p : Page) : Page :=
  {| app := app p; API_KEY := API_KEY p; sent := sent p; pending := ks;
     clipboard := clipboard p; timers := timers p; nextTimer := nextTimer p;
     clock := clock p; console := console p |}.

Definition with_timers (ts : list Timer) (p : Page) : Page :=
  {| app := app p; API_KEY := API_KEY p; sent := sent p; pending := pending p;
     clipboard := clipboard p; timers := ts; nextTimer := nextTimer p;
     clock := clock p; console := console p |}.

Definition with_app (a : AppState) (p : Page) : Page :=
  {| app := a; API_KEY := API_KEY p; sent := sent p; pending := pending p;
     clipboard := clipboard p; timers := timers p; nextTimer := nextTimer p;
     clock := clock p; console := console p |}.

Definition with_clock (t : nat) (p : Page) : Page :=
  {| app := app p; API_KEY := API_KEY p; sent := sent p; pending := pending p;
     clipboard := clipboard p; timers := timers p; nextTimer := nextTimer p;
     clock := t; console := console p |}.

Definition find_timer (id : nat) (p : Page) : option Timer :=
  find (fun t => Nat.eqb (tid t) id) (timers p).

Definition drop_timer (id : nat) (p : Page) : list Timer :=
  filter (fun t => negb (Nat.eqb (tid t) id)) (timers p).

(** One turn of the event loop; [None] when the page does not offer the
    event: the generate button is disabled while [loading], a card exists
    only for a displayed variant, only a pending call settles, and a timer
    fires once and not before it is due.  A component whose render threw is
    unmounted and handles no event any more; the form's events are kept on
    offer here on such a page too, so the pages reached below include every
    page the component reaches. *)
Definition step (e : Event) (p : Page) : option Page :=
  match e with
  | Change c => Some (exec (handleInputChange c) p)
  | ClickCollect => Some (exec (selectMode collect) p)
  | ClickNegotiate => Some (exec (selectMode negotiate) p)
  | ClickGenerate =>
      if generateDisabled (app p) then None
      else Some (exec (generateOutput (API_KEY p) (details (app p))) p)
  | ClickCopy i =>
      match nth_error (cards (app p)) i with
      | Some v => Some (exec (copyCard v i) p)
      | None => None
      end
  | Settle n o =>
      match nth_error (pending p) n with
      | Some k => Some (exec (k o) (with_pending (remove_nth n (pending p)) p))
      | None => None
      end
  | TimerFires id =>
      match find_timer id p with
      | Some t =>
          if Nat.leb (due t) (clock p)
          then Some (with_app (updates (callback t) (app p))
                       (with_timers (drop_timer id p) p))
          else None
      | None => None
      end
  | Tick ms => Some (with_clock (clock p + ms) p)
  end.

Fixpoint steps (es : list Event) (p : Page) : option Page :=
  match es with
  | [] => Some p
  | e :: es' =>
      match step e p with
      | Some p' => steps es' p'
      | None => None
      end
  end.

(** The pages a session can reach from a freshly mounted component. *)
Definition reachable (p : Page) : Prop :=
  exists key es, steps es (initialPage key) = Some p.

(** *** One invocation run to its end *)

(** What a handler does when the boundary answers by [oracle]. *)
Inductive Action :=
| Performed (eff : Effect)
| Called (req : Request).

Fixpoint actions {A} (h : M A) (oracle : Request -> Outcome) : list Action :=
  match h with
  | Ret _ => []
  | Throw _ => []
  | Do eff k => Performed eff :: actions k oracle
  | Await req k => Called req :: actions (k (oracle req)) oracle
  end.

Fixpoint calls (l : list Action) : list Request :=
  match l with
  | [] => []
  | Called req :: l' => req :: calls l'
  | Performed _ :: l' => calls l'
  end.

Fixpoint setter_calls (l : list Action) : list Update :=
  match l with
  | [] => []
  | Performed (Upd u) :: l' => u :: setter_calls l'
  | _ :: l' => setter_calls l'
  end.

(** How a handler ends. *)
Fixpoint completion {A} (h : M A) (oracle : Request -> Outcome) : Exn + A :=
  match h with
  | Ret a => inr a
  | Throw e => inl e
  | Do _ k => completion k oracle
  | Await req k => completion (k (oracle req)) oracle
  end.

(** ** Notions the properties are stated with *)

(** The part of [generateOutput] that runs once the call has settled: the
    rest of the [try] block, then [catch] and [finally]. *)
Definition afterAwait (o : Outcome) : M unit :=
  try_catch_finally
    (bind (match o with
           | inl err => Throw err
           | inr response => Ret response
           end)
       (fun response =>
          bind (JSON_parse (Js.opt_or_else (text response) "{}"))
            (fun parsedResult => setResult parsedResult)))
    (fun err => bind (console_error err) (fun _ => setError (Some GENERIC_ERROR)))
    (setLoading false).

(** The three ways the suspended handler finishes. *)
Definition onSuccess (j : json) : M unit :=
  Do (Upd (SetResult j)) (Do (Upd (SetLoading false)) (Ret tt)).

Definition onFault (err : Exn) : M unit :=
  Do (ConsoleError err)
    (Do (Upd (SetError (Some GENERIC_ERROR)))
       (Do (Upd (SetLoading false)) (Ret tt))).

(** The text handed to [JSON.parse] (line 172). *)
Definition parsedText (response : Response) : string :=
  Js.opt_or_else (text response) "{}".

Arguments request : simpl never.

(** A call faults when its promise rejects or when the parse of line 172
    throws. *)
Definition faults (o : Outcome) : Prop :=
  match o with
  | inl _ => True
  | inr response => Json.parse (parsedText response) = None
  end.

Definition thrown (o : Outcome) : Exn :=
  match o with
  | inl err => err
  | inr _ => SyntaxError
  end.

Definition timer_ok (next : nat) (t : Timer) : Prop :=
  tid t < next /\ callback t = [SetCopiedId None].

(** Either nothing is awaited and [loading] is false, or [loading] is true,
    the one suspended handler is the rest of [generateOutput] and no result
    is stored; every timer is a pending reset of the copied indicator. *)
Record inv (p : Page) : Prop := {
  inv_flight :
    (loading (app p) = false /\ pending p = []) \/
    (loading (app p) = true /\ pending p = [afterAwait] /\ result (app p) = JNull);
  inv_timers : Forall (timer_ok (nextTimer p)) (timers p)
}.

(** The fields of the situation record other than [mode]. *)
Definition same_but_mode (d d' : SituationDetails) : Prop :=
  amount d' = amount d /\ overdue d' = overdue d /\
  relationship d' = relationship d /\ channel d' = channel d /\
  language d' = language d /\ customerName d' = customerName d /\
  yourName d' = yourName d /\ otherInfo d' = otherInfo d /\
  delayReason d' = delayReason d /\ proposedSolution d' = proposedSolution d /\
  customReason d' = customReason d /\ customSolution d' = customSolution d.

Definition modeButton (m : Mode) : Event :=
  match m with
  | collect => ClickCollect
  | negotiate => ClickNegotiate
  end.

(** [haystack.includes(needle)] *)
Definition includes (needle haystack : string) : bool :=
  match String.index 0 needle haystack with
  | Some _ => true
  | None => false
  end.

Definition detailsAfter (es : list Event) : option SituationDetails :=
  match steps es (initialPage None) with
  | Some p => Some (details (app p))
  | None => None
  end.

Definition resultAfter (es : list Event) : option json :=
  match steps es (initialPage None) with
  | Some p => Some (result (app p))
  | None => None
  end.

(** The timer [id], while it has not fired, is due at [d0] and resets the
    copied indicator; later timers get other identities. *)
Definition armed (id d0 : nat) (p : Page) : Prop :=
  id < nextTimer p /\
  forall t, In t (timers p) -> tid t = id ->
            due t = d0 /\ callback t = [SetCopiedId None].

(** The turns that write the copied indicator. *)
Definition writes_indicator (e : Event) : bool :=
  match e with
  | ClickCopy _ | TimerFires _ => true
  | _ => false
  end.

(** ** Sessions and records the properties are instantiated at *)

(** An example record: 500 rupees, three days overdue. *)
Definition exampleDetails : SituationDetails :=
  assign (TextChange f_overdue "3 days")
    (assign (TextChange f_amount "₹500") initialDetails).

(** A negotiating user who picks "Other (Custom)" and types that very text
    as the custom reason. *)
Definition sentinelEvents : list Event :=
  [ ClickNegotiate;
    Change (TextChange f_amount "500");
    Change (TextChange f_delayReason "Other (Custom)");
    Change (TextChange f_customReason "Other (Custom)") ].

Definition sentinelDetails : SituationDetails :=
  {| mode := negotiate;
     amount := "500";
     overdue := EmptyString;
     relationship := "Client";
     channel := "WhatsApp";
     language := Hinglish;
     customerName := EmptyString;
     yourName := EmptyString;
     otherInfo := EmptyString;
     delayReason := "Other (Custom)";
     proposedSolution := "Pay 50% now, rest in 1 week";
     customReason := "Other (Custom)";
     customSolution := EmptyString |}.

(** A user who picked "Other (Custom)" with the reason "Flight delay" while
    negotiating and then went back to collecting. *)
Definition collectEvents : list Event :=
  [ ClickNegotiate;
    Change (TextChange f_amount "500");
    Change (TextChange f_delayReason "Other (Custom)");
    Change (TextChange f_customReason "Flight delay");
    ClickCollect ].

Definition collectDetails : SituationDetails :=
  {| mode := collect;
     amount := "500";
     overdue := EmptyString;
     relationship := "Client";
     channel := "WhatsApp";
     language := Hinglish;
     customerName := EmptyString;
     yourName := EmptyString;
     otherInfo := EmptyString;
     delayReason := "Other (Custom)";
     proposedSolution := "Pay 50% now, rest in 1 week";
     customReason := "Flight delay";
     customSolution := EmptyString |}.

(** The example record in negotiate mode, with the custom reason
    "Flight delay" and a custom solution. *)
Definition flightDetails : SituationDetails :=
  assign (TextChange f_customSolution "Pay on landing")
    (assign (TextChange f_proposedSolution "Other (Custom)")
       (assign (TextChange f_customReason "Flight delay")
          (assign (TextChange f_delayReason "Other (Custom)")
             (with_mode negotiate exampleDetails)))).

Definition dq : string := String "034"%char EmptyString.

(** A response text that matches the requested schema, with one variant. *)
Definition sampleText : string :=
  "{" ++ dq ++ "summary" ++ dq ++ ":" ++ dq ++ "Invoice overdue" ++ dq ++ "," ++
  dq ++ "principles" ++ dq ++ ":[" ++ dq ++ "Reciprocity" ++ dq ++ "]," ++
  dq ++ "variants" ++ dq ++ ":[{" ++
    dq ++ "variant" ++ dq ++ ":" ++ dq ++ "Variant A" ++ dq ++ "," ++
    dq ++ "title" ++ dq ++ ":" ++ dq ++ "Warm" ++ dq ++ "," ++
    dq ++ "content" ++ dq ++ ":" ++ dq ++ "Namaste" ++ dq ++ "}]," ++
  dq ++ "voiceNote" ++ dq ++ ":" ++ dq ++ "Hello" ++ dq ++ "}".

Definition sampleVariant : GeneratedMessage :=
  {| variant := "Variant A"; title := "Warm"; content := "Namaste" |}.

Definition sampleResult : Result :=
  {| summary := "Invoice overdue";
     principles := ["Reciprocity"];
     variants := [sampleVariant];
     voiceNote := "Hello" |}.

(** The page after an amount was typed and the generate button clicked. *)
Definition awaitingEvents : list Event :=
  [ Change (TextChange f_amount "500"); ClickGenerate ].

Definition awaitingPage : Page :=
  exec (generateOutput None (assign (TextChange f_amount "500") initialDetails))
    (exec (handleInputChange (TextChange f_amount "500")) (initialPage None)).

(** The page that shows [sampleResult]. *)
Definition shownEvents : list Event :=
  awaitingEvents ++ [ Settle 0 (inr {| text := Some sampleText |}) ].

Definition shownPage : Page :=
  exec (afterAwait (inr {| text := Some sampleText |}))
    (with_pending [] awaitingPage).

(** The same page after the amount was cleared: the result of the earlier
    generation is still shown. *)
Definition staleEvents : list Event :=
  shownEvents ++ [ Change (TextChange f_amount EmptyString) ].

Definition stalePage : Page :=
  exec (handleInputChange (TextChange f_amount EmptyString)) shownPage.

(** ** The rest of the view (lines 262-287 and 342-344) *)

(** [details[name]] for the name of a text input. *)
Definition read (name : TextField) (d : SituationDetails) : string :=
  match name with
  | f_amount => amount d
  | f_relationship => relationship d
  | f_channel => channel d
  | f_overdue => overdue d
  | f_customerName => customerName d
  | f_yourName => yourName d
  | f_delayReason => delayReason d
  | f_customReason => customReason d
  | f_proposedSolution => proposedSolution d
  | f_customSolution => customSolution d
  end.

(** The guard of the negotiate block (line 262). *)
Definition showsNegotiateFields (d : SituationDetails) : bool :=
  match mode d with
  | negotiate => true
  | collect => false
  end.

(** The guards of the two custom inputs, inside that block (lines 271 and
    282). *)
Definition showsCustomReason (d : SituationDetails) : bool :=
  showsNegotiateFields d && String.eqb (delayReason d) "Other (Custom)".

Definition showsCustomSolution (d : SituationDetails) : bool :=
  showsNegotiateFields d && String.eqb (proposedSolution d) "Other (Custom)".

(** Whether the form renders the input called [name] (lines 214-283). *)
Definition rendered (name : TextField) (d : SituationDetails) : bool :=
  match name with
  | f_delayReason | f_proposedSolution => showsNegotiateFields d
  | f_customReason => showsCustomReason d
  | f_customSolution => showsCustomSolution d
  | f_amount | f_relationship | f_channel | f_overdue
  | f_customerName | f_yourName => true
  end.

(** [copiedId === `${v.variant}-${i}`]: the card shows the check mark (lines
    342 and 344). *)
Definition isCopied (a : AppState) (v : GeneratedMessage) (i : nat) : bool :=
  match copiedId a with
  | Some c => String.eqb c (cardId v i)
  | None => false
  end.

(** ** More notions the properties are stated with *)

(** The events of the form proper: input changes and the mode buttons. *)
Definition is_form_event (e : Event) : bool :=
  match e with
  | Change _ | ClickCollect | ClickNegotiate => true
  | _ => false
  end.

(** The input a change event comes from; [None] is the language select. *)
Definition target (e : ChangeEvent) : option TextField :=
  match e with
  | TextChange name _ => Some name
  | LanguageChange _ => None
  end.

(** What a run passed to [console.error]. *)
Definition logged (l : list Action) : list Exn :=
  flat_map (fun a => match a with
                     | Performed (ConsoleError err) => [err]
                     | _ => []
                     end) l.

(** The number of settlements among the events of a session. *)
Fixpoint settlements (es : list Event) : nat :=
  match es with
  | [] => 0
  | Settle _ _ :: es' => S (settlements es')
  | _ :: es' => settlements es'
  end.

Definition is_copy (e : Event) : bool :=
  match e with
  | ClickCopy _ => true
  | _ => false
  end.

(** A string without the character of the dash. *)
Definition no_dash (s : string) : Prop :=
  forall c, In c (list_ascii_of_string s) -> c <> "-"%char.

(** What every page of a session satisfies, besides [inv]: the messages of
    the error banner, the state while the call is awaited, the empty
    [otherInfo], where a stored result and the calls made come from, and the
    timer behind a set copied indicator. *)
Record session_inv (key : option string) (p : Page) : Prop := {
  si_key : API_KEY p = key;
  si_error :
    error (app p) = None \/ error (app p) = Some VALIDATION_ERROR \/
    error (app p) = Some GENERIC_ERROR;
  si_loading : loading (app p) = true -> error (app p) = None;
  si_otherInfo : otherInfo (details (app p)) = EmptyString;
  si_result :
    result (app p) = JNull \/
    exists response, Json.parse (parsedText response) = Some (result (app p));
  si_sent :
    Forall (fun req => exists d, amount d <> EmptyString /\
                                 otherInfo d = EmptyString /\
                                 req = request key d) (sent p);
  si_copied :
    copiedId (app p) <> None ->
    exists t, In t (timers p) /\ due t <= clock p + 2000
}.

Definition reachable_with (key : option string) (p : Page) : Prop :=
  exists es, steps es (initialPage key) = Some p.

(** The page after the awaited call was rejected. *)
Definition failedEvents : list Event :=
  awaitingEvents ++ [ Settle 0 (inl (Rejected "offline")) ].

Definition failedPage : Page :=
  exec (afterAwait (inl (Rejected "offline"))) (with_pending [] awaitingPage).

(** The page that shows [sampleResult], right after its card was copied. *)
Definition copiedEvents : list Event := shownEvents ++ [ ClickCopy 0 ].

Definition copiedPage : Page := exec (copyCard sampleVariant 0) shownPage.

(** A response text that lacks [summary], [voiceNote] and the title of its
    one variant, and labels the variant with a number. *)
Definition partialText : string :=
  "{" ++ dq ++ "principles" ++ dq ++ ":[]," ++
  dq ++ "variants" ++ dq ++ ":[{" ++
    dq ++ "variant" ++ dq ++ ":7.0," ++
    dq ++ "content" ++ dq ++ ":" ++ dq ++ "Namaste" ++ dq ++ "}]}".

Definition partialCard : GeneratedMessage :=
  {| variant := "7"; title := EmptyString; content := "Namaste" |}.

(** The page that shows the cards of [partialText]. *)
Definition partialEvents : list Event :=
  awaitingEvents ++ [ Settle 0 (inr {| text := Some partialText |}) ].

Definition partialPage : Page :=
  exec (afterAwait (inr {| text := Some partialText |}))
    (with_pending [] awaitingPage).

(** The error cell, and whether the component renders, after a session. *)
Definition errorAfter (es : list Event) : option (option string) :=
  match steps es (initialPage None) with
  | Some p => Some (error (app p))
  | None => None
  end.

Definition rendersAfter (es : list Event) : option bool :=
  match steps es (initialPage None) with
  | Some p => Some (renders (app p))
  | None => None
  end.

(** The session in which the awaited call resolves with [response]. *)
Definition answered (response : Response) : list Event :=
  awaitingEvents ++ [ Settle 0 (inr response) ].

(** The responses of a session that settled a call with a text that
    parsed to [j]. *)
Definition settled_with (es : list Event) (j : json) : Prop :=
  exists n response,
    In (Settle n (inr response)) es /\
    Json.parse (parsedText response) = Some j.

(** * Properties *)

(** ** JavaScript strings *)

Module JsFacts.
Import Js.

Lemma falsy_true_iff (s : string) : falsy s = true <-> s = EmptyString.
Proof. destruct s; simpl; split; congruence. Qed.

Lemma falsy_false_iff (s : string) : falsy s = false <-> s <> EmptyString.
Proof. destruct s; simpl; split; congruence. Qed.

End JsFacts.

(** ** The fuel of [Json.parse] is enough

    Every successful step consumes input, so the recursion stops before the
    fuel does: with more fuel than the text has characters, the outcome of
    [value] does not depend on the fuel. *)

Module JsonFacts.
Import Json.
Local Open Scope nat_scope.

Lemma skip_ws_length s : String.length (skip_ws s) <= String.length s.
Proof.
  induction s as [| c s IH]; simpl; [lia |].
  destruct (is_ws c); simpl; lia.
Qed.

Lemma expect_length lit :
  forall s r, expect lit s = Some r -> String.length r <= String.length s.
Proof.
  induction lit as [| c lit IH]; intros s r; simpl.
  - intros [= <-]. lia.
  - destruct s as [| c' s]; [discriminate |].
    destruct (Ascii.eqb c c'); [| discriminate].
    intros H. apply IH in H. simpl. lia.
Qed.

Lemma digits_length s :
  forall ds r, digits s = (ds, r) ->
               String.length ds + String.length r = String.length s.
Proof.
  induction s as [| c s IH]; simpl; intros ds r H.
  - injection H as <- <-. reflexivity.
  - destruct (is_digit c).
    + destruct (digits s) as [ds' r'] eqn:E. injection H as <- <-.
      specialize (IH _ _ eq_refl). simpl. lia.
    + injection H as <- <-. simpl. lia.
Qed.

Lemma digits1_length s ds r :
  digits1 s = Some (ds, r) -> String.length r < String.length s.
Proof.
  unfold digits1. destruct (digits s) as [ds' r'] eqn:E.
  apply digits_length in E. destruct ds'; [discriminate |].
  intros [= <- <-]. simpl in E. lia.
Qed.

Lemma lex_int_length s i r :
  lex_int s = Some (i, r) -> String.length r < String.length s.
Proof.
  unfold lex_int. destruct s as [| c s]; [discriminate |].
  destruct (Ascii.eqb c "0").
  - intros [= <- <-]. simpl. lia.
  - apply digits1_length.
Qed.

Lemma lex_frac_length s f r :
  lex_frac s = Some (f, r) -> String.length r <= String.length s.
Proof.
  unfold lex_frac. destruct s as [| c s]; [intros [= <- <-]; lia |].
  destruct (Ascii.eqb c ".").
  - destruct (digits1 s) as [[ds rest] |] eqn:D; [| discriminate].
    apply digits1_length in D. intros [= <- <-]. simpl. lia.
  - intros [= <- <-]. lia.
Qed.

Lemma lex_sign_length s sg r :
  lex_sign s = (sg, r) -> String.length r <= String.length s.
Proof.
  unfold lex_sign. destruct s as [| c s]; [intros [= <- <-]; lia |].
  destruct (Ascii.eqb c "+" || Ascii.eqb c "-"); intros [= <- <-]; simpl; lia.
Qed.

Lemma lex_exp_length s e r :
  lex_exp s = Some (e, r) -> String.length r <= String.length s.
Proof.
  unfold lex_exp. destruct s as [| c s]; [intros [= <- <-]; lia |].
  destruct (Ascii.eqb c "e" || Ascii.eqb c "E").
  - destruct (lex_sign s) as [sg r1] eqn:S. apply lex_sign_length in S.
    destruct (digits1 r1) as [[ds rest] |] eqn:D; [| discriminate].
    apply digits1_length in D. intros [= <- <-]. simpl. lia.
  - intros [= <- <-]. lia.
Qed.

Lemma lex_number_length s l r :
  lex_number s = Some (l, r) -> String.length r < String.length s.
Proof.
  unfold lex_number.
  assert (Hm : forall m s0,
             match s with
             | String c r0 =>
                 if Ascii.eqb c "-" then (String c EmptyString, r0)
                 else (EmptyString, s)
             | EmptyString => (EmptyString, s)
             end = (m, s0) -> String.length s0 <= String.length s).
  { intros m s0. destruct s as [| c r0]; [intros [= <- <-]; lia |].
    destruct (Ascii.eqb c "-"); intros [= <- <-]; simpl; lia. }
  destruct (match s with
            | String c r0 =>
                if Ascii.eqb c "-" then (String c EmptyString, r0)
                else (EmptyString, s)
            | EmptyString => (EmptyString, s)
            end) as [m s0].
  specialize (Hm m s0 eq_refl).
  destruct (lex_int s0) as [[i s1] |] eqn:I; [| discriminate].
  destruct (lex_frac s1) as [[f s2] |] eqn:F; [| discriminate].
  destruct (lex_exp s2) as [[e s3] |] eqn:E; [| discriminate].
  apply lex_int_length in I. apply lex_frac_length in F.
  apply lex_exp_length in E. intros [= <- <-]. lia.
Qed.

Lemma lex_chars_length n :
  forall s ps r, String.length s <= n -> lex_chars s = Some (ps, r) ->
                 String.length r < String.length s.
Proof.
  induction n as [| n IH]; intros s ps r Hn H.
  - destruct s; [discriminate | simpl in Hn; lia].
  - assert (Hcons : forall p s' (ps' : list piece) (r' : string),
              String.length s' <= n ->
              match lex_chars s' with
              | Some (ps0, rest) => Some (p :: ps0, rest)
              | None => None
              end = Some (ps', r') ->
              String.length r' < String.length s').
    { intros p s' ps' r' Hs'. destruct (lex_chars s') as [[ps0 rest] |] eqn:E;
        [| discriminate].
      intros [= <- <-]. eapply IH; eassumption. }
    destruct s as [| c s]; [discriminate |]. simpl in Hn. simpl in H.
    destruct (Ascii.eqb c "034"); [injection H as <- <-; simpl; lia |].
    destruct (Ascii.eqb c "\").
    + destruct s as [| e s1]; [discriminate |]. simpl in Hn.
      repeat match type of H with
             | (if ?b then _ else _) = _ =>
                 destruct b;
                 [try (apply Hcons in H; [simpl; lia | lia]) |]
             end; try discriminate.
      destruct s1 as [| h1 [| h2 [| h3 [| h4 r2]]]]; try discriminate.
      simpl in Hn.
      destruct (hex_val h1), (hex_val h2), (hex_val h3), (hex_val h4);
        try discriminate.
      apply Hcons in H; [simpl; lia | lia].
    + destruct (nat_of_ascii c <? 32); [discriminate |].
      apply Hcons in H; [simpl; lia | lia].
Qed.

Lemma lex_string_length s str r :
  lex_string s = Some (str, r) -> String.length r < String.length s.
Proof.
  unfold lex_string. destruct (lex_chars s) as [[ps rest] |] eqn:E; [| discriminate].
  intros [= <- <-]. eapply lex_chars_length; [reflexivity | exact E].
Qed.

Lemma elements_length pv n :
  consumes pv -> consumes (elements pv n).
Proof.
  intros Hpv. induction n as [| n IH]; intros s vs r; simpl; [discriminate |].
  destruct (pv s) as [[v r1] |] eqn:E; [| discriminate]. apply Hpv in E.
  pose proof (skip_ws_length r1) as Hw.
  destruct (skip_ws r1) as [| c r2]; [discriminate |]. simpl in Hw.
  destruct (Ascii.eqb c ",").
  - destruct (elements pv n r2) as [[vs' rest] |] eqn:E2; [| discriminate].
    apply IH in E2. intros [= <- <-]. lia.
  - destruct (Ascii.eqb c "]"); [| discriminate]. intros [= <- <-]. lia.
Qed.

Lemma members_length pv n :
  consumes pv -> consumes (members pv n).
Proof.
  intros Hpv. induction n as [| n IH]; intros s ms r; simpl; [discriminate |].
  pose proof (skip_ws_length s) as Hw0.
  destruct (skip_ws s) as [| q r0]; [discriminate |]. simpl in Hw0.
  destruct (Ascii.eqb q "034"); [| discriminate].
  destruct (lex_string r0) as [[k r1] |] eqn:Ek; [| discriminate].
  apply lex_string_length in Ek.
  pose proof (skip_ws_length r1) as Hw1.
  destruct (skip_ws r1) as [| colon r2]; [discriminate |]. simpl in Hw1.
  destruct (Ascii.eqb colon ":"); [| discriminate].
  destruct (pv r2) as [[v r3] |] eqn:Ev; [| discriminate]. apply Hpv in Ev.
  pose proof (skip_ws_length r3) as Hw3.
  destruct (skip_ws r3) as [| c r4]; [discriminate |]. simpl in Hw3.
  destruct (Ascii.eqb c ",").
  - destruct (members pv n r4) as [[ms' rest] |] eqn:E2; [| discriminate].
    apply IH in E2. intros [= <- <-]. lia.
  - destruct (Ascii.eqb c "}"); [| discriminate]. intros [= <- <-]. lia.
Qed.

Lemma value_length fuel : consumes (value fuel).
Proof.
  induction fuel as [| fuel IH]; intros s v r; cbn [value]; [discriminate |].
  pose proof (skip_ws_length s) as Hw.
  destruct (skip_ws s) as [| c r0]; [discriminate |]. simpl in Hw.
  destruct (Ascii.eqb c "{").
  { pose proof (skip_ws_length r0) as Hw0.
    destruct (skip_ws r0) as [| c' r1]; [discriminate |]. simpl in Hw0.
    destruct (Ascii.eqb c' "}"); [intros [= <- <-]; lia |].
    destruct (members (value fuel) fuel r0) as [[ms rest] |] eqn:E; [| discriminate].
    apply (members_length (value fuel) fuel IH) in E. intros [= <- <-]. lia. }
  destruct (Ascii.eqb c "[").
  { pose proof (skip_ws_length r0) as Hw0.
    destruct (skip_ws r0) as [| c' r1]; [discriminate |]. simpl in Hw0.
    destruct (Ascii.eqb c' "]"); [intros [= <- <-]; lia |].
    destruct (elements (value fuel) fuel r0) as [[vs rest] |] eqn:E; [| discriminate].
    apply (elements_length (value fuel) fuel IH) in E. intros [= <- <-]. lia. }
  destruct (Ascii.eqb c "034").
  { destruct (lex_string r0) as [[str rest] |] eqn:E; [| discriminate].
    apply lex_string_length in E. intros [= <- <-]. lia. }
  destruct (Ascii.eqb c "t").
  { destruct (expect "rue" r0) as [rest |] eqn:E; [| discriminate].
    apply expect_length in E. intros [= <- <-]. lia. }
  destruct (Ascii.eqb c "f").
  { destruct (expect "alse" r0) as [rest |] eqn:E; [| discriminate].
    apply expect_length in E. intros [= <- <-]. lia. }
  destruct (Ascii.eqb c "n").
  { destruct (expect "ull" r0) as [rest |] eqn:E; [| discriminate].
    apply expect_length in E. intros [= <- <-]. lia. }
  destruct (lex_number (String c r0)) as [[lexeme rest] |] eqn:E; [| discriminate].
  apply lex_number_length in E. simpl in E. intros [= <- <-]. lia.
Qed.

Lemma elements_stable pv pv' :
  consumes pv ->
  forall n n' s,
    String.length s < n -> String.length s < n' -> agree_upto s pv pv' ->
    elements pv n s = elements pv' n' s.
Proof.
  intros Hpv. induction n as [| n IH]; intros n' s Hn Hn' Hag; [lia |].
  destruct n' as [| n']; [lia |]. simpl.
  rewrite <- (Hag s) by lia.
  destruct (pv s) as [[v r1] |] eqn:E; [| reflexivity]. apply Hpv in E.
  pose proof (skip_ws_length r1) as Hw.
  destruct (skip_ws r1) as [| c r2]; [reflexivity |]. simpl in Hw.
  destruct (Ascii.eqb c ","); [| reflexivity].
  rewrite (IH n' r2); [reflexivity | lia | lia |].
  intros s' Hs'. apply Hag. lia.
Qed.

Lemma members_stable pv pv' :
  consumes pv ->
  forall n n' s,
    String.length s < n -> String.length s < n' -> agree_upto s pv pv' ->
    members pv n s = members pv' n' s.
Proof.
  intros Hpv. induction n as [| n IH]; intros n' s Hn Hn' Hag; [lia |].
  destruct n' as [| n']; [lia |]. simpl.
  pose proof (skip_ws_length s) as Hw0.
  destruct (skip_ws s) as [| q r0]; [reflexivity |]. simpl in Hw0.
  destruct (Ascii.eqb q "034"); [| reflexivity].
  destruct (lex_string r0) as [[k r1] |] eqn:Ek; [| reflexivity].
  apply lex_string_length in Ek.
  pose proof (skip_ws_length r1) as Hw1.
  destruct (skip_ws r1) as [| colon r2]; [reflexivity |]. simpl in Hw1.
  destruct (Ascii.eqb colon ":"); [| reflexivity].
  rewrite <- (Hag r2) by lia.
  destruct (pv r2) as [[v r3] |] eqn:Ev; [| reflexivity]. apply Hpv in Ev.
  pose proof (skip_ws_length r3) as Hw3.
  destruct (skip_ws r3) as [| c r4]; [reflexivity |]. simpl in Hw3.
  destruct (Ascii.eqb c ","); [| reflexivity].
  rewrite (IH n' r4); [reflexivity | lia | lia |].
  intros s' Hs'. apply Hag. lia.
Qed.

Lemma value_stable :
  forall fuel fuel' s,
    String.length s < fuel -> String.length s < fuel' ->
    value fuel s = value fuel' s.
Proof.
  induction fuel as [| fuel IH]; intros fuel' s Hf Hf'; [lia |].
  destruct fuel' as [| fuel']; [lia |]. cbn [value].
  pose proof (skip_ws_length s) as Hw.
  destruct (skip_ws s) as [| c r0]; [reflexivity |]. simpl in Hw.
  assert (Hag : agree_upto r0 (value fuel) (value fuel')).
  { intros s' Hs'. apply IH; lia. }
  rewrite (members_stable (value fuel) (value fuel') (value_length fuel)
             fuel fuel' r0) by (lia || exact Hag).
  rewrite (elements_stable (value fuel) (value fuel') (value_length fuel)
             fuel fuel' r0) by (lia || exact Hag).
  reflexivity.
Qed.

(** More fuel than [parse] takes never changes the parse. *)
Lemma parse_fuel_enough (text : string) (fuel : nat) :
  String.length text < fuel ->
  value fuel text = value (S (String.length text)) text.
Proof.
  intros H. apply value_stable; lia.
Qed.

End JsonFacts.

(** ** The shape of [generateOutput] *)

Lemma generateOutput_empty key d :
  amount d = EmptyString ->
  generateOutput key d = Do (Upd (SetError (Some VALIDATION_ERROR))) (Ret tt).
Proof.
  intros H. unfold generateOutput. rewrite H. reflexivity.
Qed.

Lemma generateOutput_nonempty key d :
  amount d <> EmptyString ->
  generateOutput key d =
    Do (Upd (SetLoading true))
      (Do (Upd (SetError None))
         (Do (Upd (SetResult JNull))
            (Await (request key d) afterAwait))).
Proof.
  intros H. apply JsFacts.falsy_false_iff in H.
  unfold generateOutput. rewrite H. reflexivity.
Qed.

Lemma afterAwait_rejected err : afterAwait (inl err) = onFault err.
Proof. reflexivity. Qed.

Lemma afterAwait_parsed response j :
  Json.parse (parsedText response) = Some j ->
  afterAwait (inr response) = onSuccess j.
Proof.
  unfold parsedText. intros H.
  unfold afterAwait, try_catch_finally. cbn [bind]. unfold JSON_parse.
  rewrite H. reflexivity.
Qed.

Lemma afterAwait_unparsed response :
  Json.parse (parsedText response) = None ->
  afterAwait (inr response) = onFault SyntaxError.
Proof.
  unfold parsedText. intros H.
  unfold afterAwait, try_catch_finally. cbn [bind]. unfold JSON_parse.
  rewrite H. reflexivity.
Qed.

Lemma afterAwait_faults o : faults o -> afterAwait o = onFault (thrown o).
Proof.
  destruct o as [err | response]; simpl; intros H.
  - apply afterAwait_rejected.
  - now apply afterAwait_unparsed.
Qed.

(** [generateOutput] catches whatever its [try] block throws: it always
    returns. *)
Lemma generateOutput_returns key d oracle :
  completion (generateOutput key d) oracle = inr tt.
Proof.
  destruct (amount d) eqn:Ha.
  - rewrite (generateOutput_empty key d Ha). reflexivity.
  - rewrite generateOutput_nonempty by (rewrite Ha; discriminate).
    cbn [completion].
    destruct (oracle (request key d)) as [err | response].
    + reflexivity.
    + destruct (Json.parse (parsedText response)) as [j |] eqn:E.
      * rewrite (afterAwait_parsed _ _ E). reflexivity.
      * rewrite (afterAwait_unparsed _ E). reflexivity.
Qed.

(** ** What one turn of the event loop does *)

Lemma exec_onSuccess j p :
  exec (onSuccess j) p =
    with_app (update (SetLoading false) (update (SetResult j) (app p))) p.
Proof. reflexivity. Qed.

Lemma exec_onFault err p :
  exec (onFault err) p =
    perform (Upd (SetLoading false))
      (perform (Upd (SetError (Some GENERIC_ERROR)))
         (perform (ConsoleError err) p)).
Proof. reflexivity. Qed.

Lemma steps_cons e es p p' :
  step e p = Some p' -> steps (e :: es) p = steps es p'.
Proof. intros H. simpl. now rewrite H. Qed.

Lemma step_copy p i v :
  nth_error (cards (app p)) i = Some v ->
  step (ClickCopy i) p = Some (exec (copyCard v i) p).
Proof. intros H. simpl. now rewrite H. Qed.

(** ** The invariant of the event loop *)

Lemma inv_initial key : inv (initialPage key).
Proof.
  split; simpl.
  - left. split; reflexivity.
  - constructor.
Qed.

Lemma timer_ok_mono n m t : n <= m -> timer_ok n t -> timer_ok m t.
Proof. unfold timer_ok. intros Hle [Hlt Hcb]. split; [lia | exact Hcb]. Qed.

Lemma find_timer_In id p t :
  find_timer id p = Some t -> In t (timers p) /\ tid t = id.
Proof.
  unfold find_timer. intros H. apply find_some in H.
  destruct H as [Hin Heq]. apply Nat.eqb_eq in Heq. now split.
Qed.

Lemma drop_timer_incl id p t : In t (drop_timer id p) -> In t (timers p) /\ tid t <> id.
Proof.
  unfold drop_timer. intros H. apply filter_In in H. destruct H as [Hin Hne].
  split; [exact Hin |]. apply negb_true_iff in Hne. now apply Nat.eqb_neq in Hne.
Qed.

(** The settlement of the one pending call. *)
Lemma settle_inv n o p p' :
  inv p -> step (Settle n o) p = Some p' ->
  loading (app p) = true /\ n = 0 /\ result (app p) = JNull /\
  p' = exec (afterAwait o) (with_pending [] p).
Proof.
  intros [Hf _] Hs. simpl in Hs.
  destruct Hf as [[_ Hp] | [Hl [Hp Hr]]]; rewrite Hp in Hs.
  - destruct n; discriminate.
  - destruct n as [| n]; simpl in Hs.
    + injection Hs as <-. repeat split; assumption.
    + destruct n; discriminate.
Qed.

Lemma exec_afterAwait o p :
  exists a', exec (afterAwait o) p =
               with_app a' (exec (afterAwait o) p) /\
             loading (app (exec (afterAwait o) p)) = false /\
             pending (exec (afterAwait o) p) = pending p /\
             timers (exec (afterAwait o) p) = timers p /\
             nextTimer (exec (afterAwait o) p) = nextTimer p /\
             sent (exec (afterAwait o) p) = sent p /\
             clock (exec (afterAwait o) p) = clock p /\
             clipboard (exec (afterAwait o) p) = clipboard p /\
             copiedId (app (exec (afterAwait o) p)) = copiedId (app p) /\
             details (app (exec (afterAwait o) p)) = details (app p).
Proof.
  exists (app (exec (afterAwait o) p)).
  destruct o as [err | response].
  - rewrite afterAwait_rejected, exec_onFault. repeat split.
  - destruct (Json.parse (parsedText response)) as [j |] eqn:E.
    + rewrite (afterAwait_parsed _ _ E), exec_onSuccess. repeat split.
    + rewrite (afterAwait_unparsed _ E), exec_onFault. repeat split.
Qed.

Lemma step_inv e p p' : inv p -> step e p = Some p' -> inv p'.
Proof.
  intros Hinv Hs. destruct e as [c | | | | i | n o | id | ms].
  - (* Change *)
    injection Hs as <-. destruct Hinv as [Hf Ht]. split; simpl; assumption.
  - (* ClickCollect *)
    injection Hs as <-. destruct Hinv as [Hf Ht]. split; simpl; [| assumption].
    destruct Hf as [Hf | [Hl [Hp _]]]; [left | right]; auto.
  - (* ClickNegotiate *)
    injection Hs as <-. destruct Hinv as [Hf Ht]. split; simpl; [| assumption].
    destruct Hf as [Hf | [Hl [Hp _]]]; [left | right]; auto.
  - (* ClickGenerate *)
    simpl in Hs. unfold generateDisabled in Hs.
    destruct (loading (app p)) eqn:Hl; [discriminate |].
    injection Hs as <-. destruct Hinv as [Hf Ht].
    destruct Hf as [[_ Hp] | [Hl' _]]; [| congruence].
    destruct (amount (details (app p))) eqn:Ha.
    + rewrite generateOutput_empty by assumption.
      split; simpl; [left; auto | assumption].
    + rewrite generateOutput_nonempty by (rewrite Ha; discriminate).
      split; simpl; [| assumption].
      right. rewrite Hp. auto.
  - (* ClickCopy *)
    simpl in Hs. destruct (nth_error (cards (app p)) i) as [v |]; [| discriminate].
    injection Hs as <-. destruct Hinv as [Hf Ht]. split; simpl; [assumption |].
    apply Forall_app. split.
    + eapply Forall_impl; [| exact Ht]. intros t. apply timer_ok_mono. lia.
    + constructor; [| constructor]. split; simpl; [lia | reflexivity].
  - (* Settle *)
    destruct (settle_inv _ _ _ _ Hinv Hs) as (Hl & -> & Hr & ->).
    destruct (exec_afterAwait o (with_pending [] p))
      as (a' & _ & Hl' & Hp' & Ht' & Hn' & _).
    destruct Hinv as [_ Ht]. split.
    + left. split; [exact Hl' | exact Hp'].
    + rewrite Ht', Hn'. exact Ht.
  - (* TimerFires *)
    simpl in Hs. destruct (find_timer id p) as [t |] eqn:Hfind; [| discriminate].
    destruct (Nat.leb (due t) (clock p)); [| discriminate].
    injection Hs as <-. destruct Hinv as [Hf Ht].
    apply find_timer_In in Hfind. destruct Hfind as [Hin _].
    rewrite Forall_forall in Ht. destruct (Ht _ Hin) as [_ Hcb].
    rewrite Hcb. split; simpl.
    + assumption.
    + apply Forall_forall. intros t' Hin'.
      apply drop_timer_incl in Hin'. apply Ht. tauto.
  - (* Tick *)
    injection Hs as <-. destruct Hinv as [Hf Ht]. split; simpl; assumption.
Qed.

Lemma steps_inv es : forall p p', inv p -> steps es p = Some p' -> inv p'.
Proof.
  induction es as [| e es IH]; simpl; intros p p' Hinv Hs.
  - now injection Hs as <-.
  - destruct (step e p) as [p1 |] eqn:E; [| discriminate].
    eapply IH; [| exact Hs]. eapply step_inv; eassumption.
Qed.

Lemma reachable_inv p : reachable p -> inv p.
Proof.
  intros (key & es & H). eapply steps_inv; [apply inv_initial | exact H].
Qed.

(** ** Validation (lines 94-98) *)

(** C1. For every situation record whose amount is the empty string,
    [generateOutput] surfaces the validation error and returns: its whole run
    is the one call [setError("Please enter the amount.")], whatever the
    boundary would answer; the boundary is not called, no setter call touches
    the loading flag, and on the page nothing is sent or left pending. *)
Theorem C1_empty_amount_no_call
    (key : option string) (d : SituationDetails) (oracle : Request -> Outcome) :
  amount d = EmptyString ->
  let run := actions (generateOutput key d) oracle in
  run = [Performed (Upd (SetError (Some VALIDATION_ERROR)))] /\
  calls run = [] /\
  (forall b, ~ In (SetLoading b) (setter_calls run)) /\
  completion (generateOutput key d) oracle = inr tt /\
  (forall p,
     let p' := exec (generateOutput key d) p in
     error (app p') = Some VALIDATION_ERROR /\
     sent p' = sent p /\ pending p' = pending p /\
     loading (app p') = loading (app p)).
Proof.
  intros H. rewrite (generateOutput_empty key d H). simpl.
  repeat split.
  intros b [Hb | []]. discriminate.
Qed.

Lemma C1_empty_amount_no_call_witness :
  amount initialDetails = EmptyString /\
  calls (actions (generateOutput None initialDetails)
           (fun _ => inr {| text := None |})) = [].
Proof.
  split; [reflexivity |].
  apply (C1_empty_amount_no_call None initialDetails
           (fun _ => inr {| text := None |})).
  reflexivity.
Defined.

(** C10. When [generateOutput] is invoked with an empty amount, only the
    error cell changes: the page is the old page with [error] set to the
    validation message, so the stored result (and the cards it displays),
    the loading flag, the copied indicator and every field of the situation
    record are as they were; this is the turn the generate button triggers. *)
Theorem C10_validation_changes_error_only (p : Page) :
  amount (details (app p)) = EmptyString ->
  let p' := exec (generateOutput (API_KEY p) (details (app p))) p in
  p' = with_app (update (SetError (Some VALIDATION_ERROR)) (app p)) p /\
  error (app p') = Some VALIDATION_ERROR /\
  result (app p') = result (app p) /\
  cards (app p') = cards (app p) /\
  loading (app p') = loading (app p) /\
  copiedId (app p') = copiedId (app p) /\
  details (app p') = details (app p) /\
  (loading (app p) = false -> step ClickGenerate p = Some p').
Proof.
  intros H p'. subst p'.
  assert (E : exec (generateOutput (API_KEY p) (details (app p))) p =
              with_app (update (SetError (Some VALIDATION_ERROR)) (app p)) p).
  { rewrite (generateOutput_empty (API_KEY p) _ H). reflexivity. }
  repeat split; try (rewrite E; reflexivity).
  intros Hl. cbn [step]. unfold generateDisabled. rewrite Hl. reflexivity.
Qed.

Lemma stalePage_reachable : reachable stalePage.
Proof. exists None, staleEvents. vm_compute. reflexivity. Qed.

Lemma C10_validation_changes_error_only_witness :
  amount (details (app stalePage)) = EmptyString /\
  (let p' := exec (generateOutput (API_KEY stalePage) (details (app stalePage)))
               stalePage in
   error (app p') = Some VALIDATION_ERROR /\
   cards (app p') = [sampleVariant] /\
   step ClickGenerate stalePage = Some p').
Proof.
  split; [reflexivity |].
  destruct (C10_validation_changes_error_only stalePage eq_refl)
    as (_ & He & _ & Hc & _ & _ & _ & Hstep).
  split; [exact He |]. split; [| exact (Hstep eq_refl)].
  rewrite Hc. reflexivity.
Defined.

(** ** The single call (lines 100-170) *)

(** C5. For every situation record with a non-empty amount, one invocation
    of [generateOutput], run to its end against any behaviour of the
    boundary, calls the boundary exactly once, with the request built from
    the record; on the page the click adds exactly this one call. *)
Theorem C5_exactly_one_call
    (key : option string) (d : SituationDetails) (oracle : Request -> Outcome) :
  amount d <> EmptyString ->
  calls (actions (generateOutput key d) oracle) = [request key d] /\
  List.length (calls (actions (generateOutput key d) oracle)) = 1 /\
  (forall p, sent (exec (generateOutput key d) p) = sent p ++ [request key d]).
Proof.
  intros H. rewrite (generateOutput_nonempty key d H).
  assert (Hk : calls (actions (afterAwait (oracle (request key d))) oracle) = []).
  { destruct (oracle (request key d)) as [err | response].
    - reflexivity.
    - destruct (Json.parse (parsedText response)) as [j |] eqn:E.
      + rewrite (afterAwait_parsed _ _ E). reflexivity.
      + rewrite (afterAwait_unparsed _ E). reflexivity. }
  cbn [actions calls]. rewrite Hk. repeat split.
Qed.

Lemma C5_exactly_one_call_witness :
  amount exampleDetails <> EmptyString /\
  List.length
    (calls (actions (generateOutput None exampleDetails)
              (fun _ => inl (Rejected "offline")))) = 1.
Proof.
  split; [discriminate |].
  apply (C5_exactly_one_call None exampleDetails
           (fun _ => inl (Rejected "offline"))).
  discriminate.
Defined.

(** ** The instruction text (lines 109-127) *)

Lemma instructions_differ :
  Prompt.systemInstructionOf Prompt.HINGLISH_INSTRUCTION <>
  Prompt.systemInstructionOf Prompt.ENGLISH_INSTRUCTION.
Proof. intros H. vm_compute in H. discriminate H. Qed.

(** C7. Two situation records that agree on [language] get the same system
    instruction, character for character, in the request as well.  The
    instruction sent is the fixed text below around the one literal that
    [language] selects, the Hinglish instruction for Hinglish and the
    English instruction for English, and no other field enters it; the two
    languages get different instructions. *)
Theorem C7_instruction_depends_on_language_only
    (key1 key2 : option string) (d1 d2 : SituationDetails) :
  language d1 = language d2 ->
  Prompt.systemInstruction d1 = Prompt.systemInstruction d2 /\
  systemInstruction (config (request key1 d1)) =
    systemInstruction (config (request key2 d2)) /\
  systemInstruction (config (request key1 d1)) =
    ("You are an expert in creating polite, high-success-rate payment reminders for India. " ++ Js.LF ++
     "      Language Requirement: " ++
     match language d1 with
     | Hinglish =>
         "Use natural Hinglish (mix of simple Hindi + English) in Roman script. Use words like 'bhai', 'sir', 'ma'am', 'yaar' appropriately. Never use Devanagari."
     | English =>
         "Use professional, polite, and warm English. Maintain a helpful and respectful tone."
     end ++ Js.LF ++
     "      Tone: Respectful, professional, friendly, never threatening. Use psychological levers like Reciprocity, Commitment, and Face-saving." ++ Js.LF ++
     "      " ++ Js.LF ++
     "      STRUCTURE RULES:" ++ Js.LF ++
     "      1. Situation summary: 1 short sentence in English." ++ Js.LF ++
     "      2. Key psychological principles: List 3-6 items." ++ Js.LF ++
     "      3. Message Variants:" ++ Js.LF ++
     "         - Variant A: Sabse zyada warm (most empathetic)" ++ Js.LF ++
     "         - Variant B: Reciprocity focus (remind of value/service provided)" ++ Js.LF ++
     "         - Variant C: Soft time sensitivity + easy call-to-action" ++ Js.LF ++
     "         - Variant D: Face-saving excuse (busy life/system error) + positive future." ++ Js.LF ++
     "      4. Voice Note script: Short spoken opener in the selected language." ++ Js.LF ++
     "      " ++ Js.LF ++
     "      IMPORTANT: Ensure all messages end with a clear Call to Action. Length: 80-180 words each. Do not use placeholders like [Your Name] if names are provided.")%string /\
  (Prompt.languageInstruction d1 = Prompt.HINGLISH_INSTRUCTION \/
   Prompt.languageInstruction d1 = Prompt.ENGLISH_INSTRUCTION) /\
  Prompt.HINGLISH_INSTRUCTION <> Prompt.ENGLISH_INSTRUCTION /\
  (forall d d',
     language d <> language d' ->
     Prompt.systemInstruction d <> Prompt.systemInstruction d').
Proof.
  intros H.
  assert (E : Prompt.systemInstruction d1 = Prompt.systemInstruction d2).
  { unfold Prompt.systemInstruction, Prompt.languageInstruction. now rewrite H. }
  split; [exact E |]. split; [exact E |]. split; [| split; [| split]].
  - unfold request. cbn [config systemInstruction].
    unfold Prompt.systemInstruction, Prompt.languageInstruction.
    destruct (language d1); reflexivity.
  - unfold Prompt.languageInstruction. destruct (language d1); auto.
  - discriminate.
  - intros d d' Hne.
    unfold Prompt.systemInstruction, Prompt.languageInstruction.
    destruct (language d), (language d'); try (now elim Hne).
    + exact instructions_differ.
    + intros Heq. apply instructions_differ. now symmetry.
Qed.

Lemma C7_instruction_depends_on_language_only_witness :
  language initialDetails = language exampleDetails /\
  Prompt.systemInstruction initialDetails = Prompt.systemInstruction exampleDetails.
Proof.
  split; [reflexivity |].
  apply (C7_instruction_depends_on_language_only None None
           initialDetails exampleDetails).
  reflexivity.
Defined.

(** ** Mode switch (lines 194-205) *)

(** C6. In every state, each of the two mode buttons is enabled and its
    turn sets [mode] to the button's mode, clears the stored result, and
    leaves every other field of the situation record unchanged. *)
Theorem C6_mode_switch_clears_result (p : Page) (m : Mode) :
  exists p',
    step (modeButton m) p = Some p' /\
    mode (details (app p')) = m /\
    result (app p') = JNull /\
    cards (app p') = [] /\
    same_but_mode (details (app p)) (details (app p')).
Proof.
  exists (exec (selectMode m) p).
  split; [destruct m; reflexivity |].
  simpl. unfold same_but_mode. simpl. repeat split.
Qed.

(** ** The custom override (lines 106-107 and 138) *)

(** C3 fails as stated.  With the sentinel typed as the custom reason, the
    record reaches the request-building step and the effective delay reason,
    embedded in the request, is the sentinel string itself.  In collect mode
    the record reaches that step too, and the request embeds no delay reason
    at all, neither the custom text nor a reason line. *)
Lemma C3_counterexample :
  (detailsAfter sentinelEvents = Some sentinelDetails /\
   Js.falsy (amount sentinelDetails) = false /\
   delayReason sentinelDetails = OTHER_CUSTOM /\
   Prompt.finalReason sentinelDetails = OTHER_CUSTOM /\
   includes "Reason for Delay: Other (Custom)"
     (contents (request None sentinelDetails)) = true) /\
  (detailsAfter collectEvents = Some collectDetails /\
   Js.falsy (amount collectDetails) = false /\
   delayReason collectDetails = OTHER_CUSTOM /\
   includes (customReason collectDetails)
     (contents (request None collectDetails)) = false /\
   includes "Reason for Delay" (contents (request None collectDetails)) = false).
Proof. vm_compute. repeat split. Qed.

(** C3, amended.  When [delayReason] (respectively [proposedSolution]) is
    the sentinel "Other (Custom)", the effective delay reason (respectively
    proposed solution) is the [customReason] (respectively [customSolution])
    text; it differs from the sentinel whenever that custom text does; in
    negotiate mode it is this custom text that the request embeds, after
    "Reason for Delay: " (respectively "Proposed Solution: ").  In collect
    mode the request embeds neither value. *)
Theorem C3_custom_text_is_effective (key : option string) (d : SituationDetails) :
  (delayReason d = OTHER_CUSTOM ->
     Prompt.finalReason d = customReason d /\
     (customReason d <> OTHER_CUSTOM -> Prompt.finalReason d <> OTHER_CUSTOM) /\
     (mode d = negotiate ->
        contents (request key d) =
          (Prompt.promptHead d ++
           ("Reason for Delay: " ++ customReason d ++ Js.LF ++
            "Proposed Solution: " ++ Prompt.finalSolution d) ++
           Prompt.promptTail d)%string)) /\
  (proposedSolution d = OTHER_CUSTOM ->
     Prompt.finalSolution d = customSolution d /\
     (customSolution d <> OTHER_CUSTOM -> Prompt.finalSolution d <> OTHER_CUSTOM) /\
     (mode d = negotiate ->
        contents (request key d) =
          (Prompt.promptHead d ++
           ("Reason for Delay: " ++ Prompt.finalReason d ++ Js.LF ++
            "Proposed Solution: " ++ customSolution d) ++
           Prompt.promptTail d)%string)) /\
  (mode d = collect ->
     contents (request key d) = (Prompt.promptHead d ++ Prompt.promptTail d)%string).
Proof.
  unfold request, Prompt.userPrompt, Prompt.negotiateLines. cbn [contents].
  split; [| split].
  - intros H.
    assert (E : Prompt.finalReason d = customReason d).
    { unfold Prompt.finalReason. rewrite H. reflexivity. }
    rewrite E. split; [reflexivity | split].
    + auto.
    + intros ->. reflexivity.
  - intros H.
    assert (E : Prompt.finalSolution d = customSolution d).
    { unfold Prompt.finalSolution. rewrite H. reflexivity. }
    rewrite E. split; [reflexivity | split].
    + auto.
    + intros ->. reflexivity.
  - intros ->. reflexivity.
Qed.

Lemma C3_custom_text_is_effective_witness :
  (delayReason flightDetails = OTHER_CUSTOM /\
   proposedSolution flightDetails = OTHER_CUSTOM /\
   customReason flightDetails <> OTHER_CUSTOM /\
   mode flightDetails = negotiate) /\
  Prompt.finalReason flightDetails = "Flight delay" /\
  Prompt.finalReason flightDetails <> OTHER_CUSTOM /\
  Prompt.finalSolution flightDetails = "Pay on landing" /\
  includes "Reason for Delay: Flight delay" (contents (request None flightDetails))
    = true.
Proof.
  split; [repeat split; discriminate |].
  destruct (C3_custom_text_is_effective None flightDetails) as (Hr & Hs & _).
  destruct (Hr eq_refl) as (Er & Nr & Pr).
  destruct (Hs eq_refl) as (Es & _ & _).
  split; [exact Er | split; [apply Nr; discriminate | split; [exact Es |]]].
  rewrite (Pr eq_refl). vm_compute. reflexivity.
Defined.

(** ** The stored result (lines 100-102 and 172-179) *)

Lemma awaitingPage_reachable : reachable awaitingPage.
Proof. exists None, awaitingEvents. reflexivity. Qed.

(** C2 does not hold of the code.  When the response carries no text, or
    an empty text, line 172 parses "{}" in its place and line 173 stores
    the empty object: a value that has none of the fields of [Result], with
    no error set, on which the next render throws ([principles] is
    undefined at line 324).  A text that is JSON of another shape, such as
    an array, is stored as it is and breaks the render the same way.  The
    sibling path of a text that does not parse sets the generic error and
    leaves the result null. *)
Theorem C2_absent_text_stores_the_empty_object :
  (resultAfter (answered {| text := None |}) = Some (JObject []) /\
   resultAfter (answered {| text := Some EmptyString |}) = Some (JObject []) /\
   errorAfter (answered {| text := None |}) = Some None /\
   conforms (JObject []) = false /\
   rendersAfter (answered {| text := None |}) = Some false) /\
  (resultAfter (answered {| text := Some "[1]" |}) = Some (JArray [JNumber "1"]) /\
   conforms (JArray [JNumber "1"]) = false /\
   rendersAfter (answered {| text := Some "[1]" |}) = Some false) /\
  (resultAfter (answered {| text := Some "<html>Bad Gateway</html>" |})
     = Some JNull /\
   errorAfter (answered {| text := Some "<html>Bad Gateway</html>" |})
     = Some (Some GENERIC_ERROR) /\
   rendersAfter (answered {| text := Some "<html>Bad Gateway</html>" |})
     = Some true).
Proof. vm_compute. repeat split. Qed.

Lemma parsedText_cases (response : Response) :
  parsedText response =
    match text response with
    | Some (String c t) => String c t
    | Some EmptyString => "{}"
    | None => "{}"
    end.
Proof. unfold parsedText. destruct (text response) as [[| c t] |]; reflexivity. Qed.

(** X20. What a settlement stores.  Whenever a run of [generateOutput]
    ends, on any reachable page: if it stores a value, the call resolved
    and the stored value is the JSON parse of the returned text, or of the
    literal "{}" when that text is absent or empty; the parse is stored
    unchanged and unchecked, whatever its shape; a rejected call or a
    failed parse stores nothing. *)
Theorem X20_settlement_stores_the_parse (p p' : Page) (n : nat) (o : Outcome) :
  reachable p ->
  step (Settle n o) p = Some p' ->
  (result (app p') <> JNull ->
     exists response,
       o = inr response /\
       Json.parse (parsedText response) = Some (result (app p'))) /\
  (forall response j,
     o = inr response -> Json.parse (parsedText response) = Some j ->
     result (app p') = j /\ as_Result (result (app p')) = as_Result j) /\
  (faults o -> result (app p') = JNull) /\
  (forall response,
     parsedText response =
       match text response with
       | Some (String c t) => String c t
       | Some EmptyString => "{}"
       | None => "{}"
       end).
Proof.
  intros Hr Hs. apply reachable_inv in Hr.
  destruct (settle_inv _ _ _ _ Hr Hs) as (_ & _ & Hnull & ->).
  assert (Hfault : faults o ->
            result (app (exec (afterAwait o) (with_pending [] p))) = JNull).
  { intros Hf. rewrite (afterAwait_faults _ Hf), exec_onFault. exact Hnull. }
  assert (Hok : forall response j,
            o = inr response -> Json.parse (parsedText response) = Some j ->
            result (app (exec (afterAwait o) (with_pending [] p))) = j).
  { intros response j -> E. rewrite (afterAwait_parsed _ _ E), exec_onSuccess.
    reflexivity. }
  split; [| split; [| split]].
  - intros Hne. destruct o as [err | response].
    + exfalso. apply Hne. apply Hfault. exact I.
    + exists response. split; [reflexivity |].
      destruct (Json.parse (parsedText response)) as [j |] eqn:E.
      * now rewrite (Hok response j eq_refl E).
      * exfalso. apply Hne. apply Hfault. exact E.
  - intros response j Ho E. rewrite (Hok response j Ho E). split; reflexivity.
  - exact Hfault.
  - apply parsedText_cases.
Qed.

Lemma X20_settlement_stores_the_parse_witness :
  reachable awaitingPage /\
  (exists p',
     step (Settle 0 (inr {| text := Some sampleText |})) awaitingPage = Some p' /\
     as_Result (result (app p')) = Some sampleResult).
Proof.
  split; [exact awaitingPage_reachable |].
  eexists. split; [reflexivity |].
  destruct (X20_settlement_stores_the_parse awaitingPage _ 0
              (inr {| text := Some sampleText |}) awaitingPage_reachable eq_refl)
    as (_ & Hok & _).
  edestruct (Hok {| text := Some sampleText |}) as [_ E].
  - reflexivity.
  - vm_compute. reflexivity.
  - rewrite E. vm_compute. reflexivity.
Defined.

(** C4 does not hold of the code.  The empty string is no JSON text, yet
    when the call returns an empty text line 172 parses "{}" in its place:
    no error is set and the empty object is stored, on which the next
    render throws.  The sibling path of a non-empty text that does not
    parse sets the generic error and leaves the result null. *)
Theorem C4_empty_text_sets_no_error :
  (Json.parse EmptyString = None /\
   errorAfter (answered {| text := Some EmptyString |}) = Some None /\
   resultAfter (answered {| text := Some EmptyString |}) = Some (JObject []) /\
   rendersAfter (answered {| text := Some EmptyString |}) = Some false) /\
  (Json.parse "<html>Bad Gateway</html>" = None /\
   errorAfter (answered {| text := Some "<html>Bad Gateway</html>" |})
     = Some (Some GENERIC_ERROR) /\
   resultAfter (answered {| text := Some "<html>Bad Gateway</html>" |})
     = Some JNull).
Proof. vm_compute. repeat split. Qed.

(** X19. Whenever a run of [generateOutput] ends, on any reachable page,
    because the call rejected or because the parse of line 172, of the
    returned text or of "{}" in place of an absent or empty text, threw:
    the generic error message is set, the stored result is null, the
    loading flag is off and the fault was logged. *)
Theorem X19_fault_sets_generic_error (p p' : Page) (n : nat) (o : Outcome) :
  reachable p ->
  step (Settle n o) p = Some p' ->
  faults o ->
  error (app p') = Some GENERIC_ERROR /\
  result (app p') = JNull /\
  loading (app p') = false /\
  console p' = console p ++ [thrown o].
Proof.
  intros Hr Hs Hf. apply reachable_inv in Hr.
  destruct (settle_inv _ _ _ _ Hr Hs) as (_ & _ & Hnull & ->).
  rewrite (afterAwait_faults _ Hf), exec_onFault. simpl.
  repeat split. exact Hnull.
Qed.

Lemma X19_fault_sets_generic_error_witness :
  (reachable awaitingPage /\
   faults (inr {| text := Some "<html>Bad Gateway</html>" |})) /\
  (exists p',
     step (Settle 0 (inr {| text := Some "<html>Bad Gateway</html>" |}))
       awaitingPage = Some p' /\
     error (app p') = Some GENERIC_ERROR /\ result (app p') = JNull).
Proof.
  split; [split; [exact awaitingPage_reachable | reflexivity] |].
  eexists. split; [reflexivity |].
  destruct (X19_fault_sets_generic_error awaitingPage _ 0
              (inr {| text := Some "<html>Bad Gateway</html>" |})
              awaitingPage_reachable eq_refl eq_refl) as (He & Hn & _).
  split; assumption.
Defined.

(** The same, for one invocation run to its end. *)
Lemma generateOutput_fault_run key d oracle :
  amount d <> EmptyString ->
  faults (oracle (request key d)) ->
  setter_calls (actions (generateOutput key d) oracle) =
    [ SetLoading true; SetError None; SetResult JNull;
      SetError (Some GENERIC_ERROR); SetLoading false ].
Proof.
  intros H Hf. rewrite (generateOutput_nonempty key d H).
  cbn [actions setter_calls]. rewrite (afterAwait_faults _ Hf). reflexivity.
Qed.

(** ** One generation at a time (lines 100-179 and 289-292) *)

(** C8. On every page a session can reach, at most one generation call is
    awaited; the loading flag is on exactly while one is; while it is on the
    generate button does not respond, so no second invocation starts; the
    only turn that turns the flag off is the settlement of the awaited call,
    and every settlement, with a response or a fault, turns it off and
    leaves nothing awaited. *)
Theorem C8_at_most_one_in_flight (p : Page) :
  reachable p ->
  List.length (pending p) <= 1 /\
  (loading (app p) = true <-> List.length (pending p) = 1) /\
  (loading (app p) = true -> step ClickGenerate p = None) /\
  (forall e p',
     step e p = Some p' -> loading (app p) = true -> loading (app p') = false ->
     exists n o, e = Settle n o) /\
  (forall n o p',
     step (Settle n o) p = Some p' ->
     loading (app p') = false /\ pending p' = []).
Proof.
  intros Hr. apply reachable_inv in Hr. pose proof Hr as [Hf Ht].
  split; [| split; [| split; [| split]]].
  - destruct Hf as [[_ ->] | [_ [-> _]]]; simpl; lia.
  - destruct Hf as [[Hl ->] | [Hl [-> _]]]; rewrite Hl; simpl; split;
      first [reflexivity | discriminate].
  - intros Hl. simpl. unfold generateDisabled. now rewrite Hl.
  - intros e p' Hs Hon Hoff.
    destruct e as [c | | | | i | n o | id | ms]; simpl in Hs.
    + injection Hs as <-. simpl in Hoff. congruence.
    + injection Hs as <-. simpl in Hoff. congruence.
    + injection Hs as <-. simpl in Hoff. congruence.
    + unfold generateDisabled in Hs. rewrite Hon in Hs. discriminate.
    + destruct (nth_error (cards (app p)) i); [| discriminate].
      injection Hs as <-. simpl in Hoff. congruence.
    + now exists n, o.
    + destruct (find_timer id p) as [t |] eqn:Hfind; [| discriminate].
      destruct (Nat.leb (due t) (clock p)); [| discriminate].
      injection Hs as <-.
      apply find_timer_In in Hfind. destruct Hfind as [Hin _].
      rewrite Forall_forall in Ht. destruct (Ht _ Hin) as [_ Hcb].
      rewrite Hcb in Hoff. simpl in Hoff. congruence.
    + injection Hs as <-. simpl in Hoff. congruence.
  - intros n o p' Hs.
    destruct (settle_inv _ _ _ _ Hr Hs) as (_ & _ & _ & ->).
    destruct (exec_afterAwait o (with_pending [] p)) as (_ & _ & Hl & Hp & _).
    split; [exact Hl | exact Hp].
Qed.

Lemma C8_at_most_one_in_flight_witness :
  reachable awaitingPage /\
  List.length (pending awaitingPage) <= 1 /\
  step ClickGenerate awaitingPage = None.
Proof.
  split; [exact awaitingPage_reachable |].
  destruct (C8_at_most_one_in_flight awaitingPage awaitingPage_reachable)
    as (Hle & _ & Hoff & _).
  split; [exact Hle | apply Hoff; reflexivity].
Defined.

(** ** The copy acknowledgement (lines 182-186 and 341-344) *)

Lemma exec_clock (h : M unit) : forall p, clock (exec h p) = clock p.
Proof.
  induction h as [a | e | eff k IH | req k _]; intros p; simpl; try reflexivity.
  rewrite IH. destruct eff; reflexivity.
Qed.

Lemma step_clock e p p' : step e p = Some p' -> clock p <= clock p'.
Proof.
  destruct e as [c | | | | i | n o | id | ms]; simpl; intros Hs.
  - injection Hs as <-. simpl. lia.
  - injection Hs as <-. simpl. lia.
  - injection Hs as <-. simpl. lia.
  - destruct (generateDisabled (app p)); [discriminate |].
    injection Hs as <-. rewrite exec_clock. lia.
  - destruct (nth_error (cards (app p)) i); [| discriminate].
    injection Hs as <-. simpl. lia.
  - destruct (nth_error (pending p) n); [| discriminate].
    injection Hs as <-. rewrite exec_clock. simpl. lia.
  - destruct (find_timer id p) as [t |]; [| discriminate].
    destruct (Nat.leb (due t) (clock p)); [| discriminate].
    injection Hs as <-. simpl. lia.
  - injection Hs as <-. simpl. lia.
Qed.

Lemma perform_armed id d0 eff p : armed id d0 p -> armed id d0 (perform eff p).
Proof.
  intros [Hlt Ht]. destruct eff as [u | err | t | cb ms]; try (split; assumption).
  split; simpl; [lia |].
  intros t Hin Hid. apply in_app_or in Hin. destruct Hin as [Hin | [<- | []]].
  - now apply Ht.
  - simpl in Hid. lia.
Qed.

Lemma exec_armed id d0 (h : M unit) :
  forall p, armed id d0 p -> armed id d0 (exec h p).
Proof.
  induction h as [a | e | eff k IH | req k _]; intros p Ha; simpl; try assumption.
  apply IH. now apply perform_armed.
Qed.

Lemma step_armed id d0 e p p' :
  step e p = Some p' -> armed id d0 p -> armed id d0 p'.
Proof.
  destruct e as [c | | | | i | n o | id' | ms]; simpl; intros Hs Ha.
  - injection Hs as <-. exact Ha.
  - injection Hs as <-. exact Ha.
  - injection Hs as <-. exact Ha.
  - destruct (generateDisabled (app p)); [discriminate |].
    injection Hs as <-. now apply exec_armed.
  - destruct (nth_error (cards (app p)) i) as [v |]; [| discriminate].
    injection Hs as <-.
    apply (exec_armed id d0 (copyCard v i)). exact Ha.
  - destruct (nth_error (pending p) n); [| discriminate].
    injection Hs as <-. apply exec_armed. exact Ha.
  - destruct (find_timer id' p) as [t |]; [| discriminate].
    destruct (Nat.leb (due t) (clock p)); [| discriminate].
    injection Hs as <-. destruct Ha as [Hlt Ht]. split; simpl; [exact Hlt |].
    intros t' Hin. apply drop_timer_incl in Hin. apply Ht. tauto.
  - injection Hs as <-. exact Ha.
Qed.

Lemma steps_armed id d0 es :
  forall p p', steps es p = Some p' -> armed id d0 p ->
               armed id d0 p' /\ clock p <= clock p'.
Proof.
  induction es as [| e es IH]; simpl; intros p p' Hs Ha.
  - injection Hs as <-. split; [exact Ha | lia].
  - destruct (step e p) as [p1 |] eqn:E; [| discriminate].
    destruct (IH _ _ Hs (step_armed _ _ _ _ _ E Ha)) as [Ha' Hc].
    split; [exact Ha' |]. apply step_clock in E. lia.
Qed.

Lemma step_keeps_indicator e p p' :
  inv p -> writes_indicator e = false -> step e p = Some p' ->
  copiedId (app p') = copiedId (app p).
Proof.
  intros Hinv Hw Hs. destruct e as [c | | | | i | n o | id | ms];
    try discriminate Hw.
  - injection Hs as <-. reflexivity.
  - injection Hs as <-. reflexivity.
  - injection Hs as <-. reflexivity.
  - simpl in Hs. destruct (generateDisabled (app p)); [discriminate |].
    injection Hs as <-.
    destruct (amount (details (app p))) eqn:Ha.
    + rewrite generateOutput_empty by assumption. reflexivity.
    + rewrite generateOutput_nonempty by (rewrite Ha; discriminate). reflexivity.
  - destruct (settle_inv _ _ _ _ Hinv Hs) as (_ & _ & _ & ->).
    destruct (exec_afterAwait o (with_pending [] p))
      as (_ & _ & _ & _ & _ & _ & _ & _ & _ & Hc & _).
    exact Hc.
  - injection Hs as <-. reflexivity.
Qed.

Lemma steps_keep_indicator es :
  forall p p', inv p -> forallb (fun e => negb (writes_indicator e)) es = true ->
               steps es p = Some p' ->
               copiedId (app p') = copiedId (app p).
Proof.
  induction es as [| e es IH]; simpl; intros p p' Hinv Hq Hs.
  - now injection Hs as <-.
  - apply andb_true_iff in Hq. destruct Hq as [Hq1 Hq2].
    apply negb_true_iff in Hq1.
    destruct (step e p) as [p1 |] eqn:E; [| discriminate].
    rewrite (IH _ _ (step_inv _ _ _ Hinv E) Hq2 Hs).
    now apply step_keeps_indicator with (e := e).
Qed.

Lemma find_fresh (id : nat) (l : list Timer) (t : Timer) :
  Forall (timer_ok id) l -> tid t = id ->
  find (fun t' => Nat.eqb (tid t') id) (l ++ [t]) = Some t.
Proof.
  intros Hl Hid. induction Hl as [| x l [Hx _] _ IH]; simpl.
  - rewrite Hid, Nat.eqb_refl. reflexivity.
  - destruct (Nat.eqb (tid x) id) eqn:E; [| exact IH].
    apply Nat.eqb_eq in E. lia.
Qed.

(** C9. For every displayed variant, the copy button of its card writes the
    variant's content to the clipboard, sets the copied indicator to the
    card's identity (the variant label, a dash, the card's index) and sets a
    timer due 2000 ms later.  The indicator stays as set as long as no other
    copy is made and no timer fires; whenever that timer fires, whatever
    happened in between, at least 2000 ms have passed and the indicator
    is cleared. *)
Theorem C9_copy_indicator (p : Page) (i : nat) (v : GeneratedMessage) :
  reachable p ->
  nth_error (cards (app p)) i = Some v ->
  exists p1,
    step (ClickCopy i) p = Some p1 /\
    clipboard p1 = Some (content v) /\
    copiedId (app p1) = Some (variant v ++ "-" ++ Js.of_index i)%string /\
    find_timer (nextTimer p) p1 =
      Some {| tid := nextTimer p; due := clock p + 2000;
              callback := [SetCopiedId None] |} /\
    (forall es p2,
       steps es p1 = Some p2 ->
       forallb (fun e => negb (writes_indicator e)) es = true ->
       copiedId (app p2) = Some (variant v ++ "-" ++ Js.of_index i)%string) /\
    (forall es p2 p3,
       steps es p1 = Some p2 ->
       step (TimerFires (nextTimer p)) p2 = Some p3 ->
       clock p + 2000 <= clock p3 /\ copiedId (app p3) = None).
Proof.
  intros Hr Hv. apply reachable_inv in Hr.
  assert (Hs : step (ClickCopy i) p = Some (exec (copyCard v i) p)).
  { simpl. rewrite Hv. reflexivity. }
  pose proof (step_inv _ _ _ Hr Hs) as Hinv1.
  exists (exec (copyCard v i) p).
  split; [exact Hs |]. split; [reflexivity |]. split; [reflexivity |].
  assert (Hfind : find_timer (nextTimer p) (exec (copyCard v i) p) =
                  Some {| tid := nextTimer p; due := clock p + 2000;
                          callback := [SetCopiedId None] |}).
  { unfold find_timer. simpl. apply find_fresh; [apply Hr | reflexivity]. }
  split; [exact Hfind |]. split.
  - intros es p2 Hes Hq.
    rewrite (steps_keep_indicator es _ _ Hinv1 Hq Hes). reflexivity.
  - intros es p2 p3 Hes Hfire.
    assert (Ha : armed (nextTimer p) (clock p + 2000) (exec (copyCard v i) p)).
    { split; simpl; [lia |].
      intros t Hin Hid. apply in_app_or in Hin. destruct Hin as [Hin | [<- | []]].
      - destruct Hr as [_ Ht]. rewrite Forall_forall in Ht.
        destruct (Ht _ Hin) as [Hlt _]. lia.
      - split; reflexivity. }
    destruct (steps_armed _ _ es _ _ Hes Ha) as [[_ Ha2] Hc].
    simpl in Hc. simpl in Hfire.
    destruct (find_timer (nextTimer p) p2) as [t |] eqn:Hf2; [| discriminate].
    destruct (Nat.leb (due t) (clock p2)) eqn:Hdue; [| discriminate].
    injection Hfire as <-.
    apply find_timer_In in Hf2. destruct Hf2 as [Hin Hid].
    destruct (Ha2 _ Hin Hid) as [Hd Hcb].
    apply Nat.leb_le in Hdue. rewrite Hcb. simpl. split; [lia | reflexivity].
Qed.

Lemma shownPage_reachable : reachable shownPage.
Proof. exists None, shownEvents. vm_compute. reflexivity. Qed.

Lemma partialPage_reachable : reachable partialPage.
Proof. exists None, partialEvents. vm_compute. reflexivity. Qed.

Lemma C9_copy_indicator_witness :
  (reachable partialPage /\
   nth_error (cards (app partialPage)) 0 = Some partialCard) /\
  (exists p1 p2 p3,
     step (ClickCopy 0) partialPage = Some p1 /\
     clipboard p1 = Some "Namaste" /\
     copiedId (app p1) = Some "7-0" /\
     steps [Tick 2000] p1 = Some p2 /\
     step (TimerFires 0) p2 = Some p3 /\
     copiedId (app p3) = None).
Proof.
  assert (Hc : nth_error (cards (app partialPage)) 0 = Some partialCard)
    by (vm_compute; reflexivity).
  split; [split; [exact partialPage_reachable | exact Hc] |].
  destruct (C9_copy_indicator partialPage 0 partialCard partialPage_reachable Hc)
    as (p1 & Hs & Hclip & Hid & _ & _ & Hfire).
  assert (E : p1 = exec (copyCard partialCard 0) partialPage).
  { rewrite (step_copy partialPage 0 partialCard Hc) in Hs. now injection Hs. }
  exists p1. subst p1. do 2 eexists.
  split; [exact Hs |]. split; [exact Hclip |]. split; [exact Hid |].
  split; [reflexivity |]. split; [vm_compute; reflexivity |].
  refine (proj2 (Hfire [Tick 2000] _ _ eq_refl _)). vm_compute. reflexivity.
Defined.

(** * Further properties of the component *)

(** ** Input changes (lines 89-92) *)

Lemma read_assign_same name value d :
  read name (assign (TextChange name value) d) = value.
Proof. destruct name; reflexivity. Qed.

Lemma read_assign_other name other value d :
  other <> name -> read other (assign (TextChange name value) d) = read other d.
Proof. destruct name, other; intros H; try reflexivity; congruence. Qed.

(** X1. A change event of a text input writes the input's value to the
    field the input is named after, and a change of the language select
    writes the language: the field reads back the value, every other field
    of the situation record keeps its value, and the turn touches nothing
    else on the page (result, error, loading flag, copied indicator, calls,
    clipboard, timers). *)
Theorem X1_change_writes_one_field (p : Page) (e : ChangeEvent) :
  exists p',
    step (Change e) p = Some p' /\
    (forall name value,
       e = TextChange name value ->
       read name (details (app p')) = value /\
       language (details (app p')) = language (details (app p)) /\
       forall other, other <> name ->
         read other (details (app p')) = read other (details (app p))) /\
    (forall l,
       e = LanguageChange l ->
       language (details (app p')) = l /\
       forall name, read name (details (app p')) = read name (details (app p))) /\
    mode (details (app p')) = mode (details (app p)) /\
    otherInfo (details (app p')) = otherInfo (details (app p)) /\
    (result (app p'), error (app p'), loading (app p'), copiedId (app p')) =
      (result (app p), error (app p), loading (app p), copiedId (app p)) /\
    (sent p', pending p', clipboard p', timers p', clock p') =
      (sent p, pending p, clipboard p, timers p, clock p).
Proof.
  exists (exec (handleInputChange e) p). split; [reflexivity |].
  split; [| split].
  - intros name value ->. split; [apply read_assign_same |].
    split; [reflexivity |]. intros other H. now apply read_assign_other.
  - intros l ->. split; [reflexivity |]. intros name. destruct name; reflexivity.
  - repeat split.
Qed.

Lemma X1_change_writes_one_field_witness :
  exists p',
    step (Change (TextChange f_overdue "3 days")) awaitingPage = Some p' /\
    overdue (details (app p')) = "3 days" /\
    amount (details (app p')) = "500".
Proof.
  destruct (X1_change_writes_one_field awaitingPage (TextChange f_overdue "3 days"))
    as (p' & Hs & Ht & _).
  exists p'. split; [exact Hs |].
  destruct (Ht f_overdue "3 days" eq_refl) as (Hv & _ & Ho).
  split; [exact Hv |].
  assert (Hne : f_amount <> f_overdue) by discriminate.
  exact (Ho f_amount Hne).
Defined.

Lemma assign_same_target e1 e2 d :
  target e1 = target e2 -> assign e2 (assign e1 d) = assign e2 d.
Proof.
  destruct e1 as [n1 v1 | l1], e2 as [n2 v2 | l2]; simpl; intros H;
    try discriminate; try reflexivity.
  injection H as ->. destruct n2; reflexivity.
Qed.

Lemma assign_other_target e1 e2 d :
  target e1 <> target e2 -> assign e2 (assign e1 d) = assign e1 (assign e2 d).
Proof.
  destruct e1 as [n1 v1 | l1], e2 as [n2 v2 | l2]; simpl; intros H.
  - destruct n1, n2; try reflexivity; congruence.
  - destruct n1; reflexivity.
  - destruct n2; reflexivity.
  - congruence.
Qed.

Lemma exec_change e p :
  exec (handleInputChange e) p = with_app (update (SetDetails (assign e)) (app p)) p.
Proof. reflexivity. Qed.

Lemma exec_change_change e1 e2 p :
  exec (handleInputChange e2) (exec (handleInputChange e1) p) =
  with_app (update (SetDetails (fun d => assign e2 (assign e1 d))) (app p)) p.
Proof. reflexivity. Qed.

Lemma with_app_details_ext f g p :
  f (details (app p)) = g (details (app p)) ->
  with_app (update (SetDetails f) (app p)) p =
  with_app (update (SetDetails g) (app p)) p.
Proof. intros H. unfold with_app, update. now rewrite H. Qed.

(** X2. Input changes compose as writes to a record: of two changes of the
    same input the later one wins, and changes of two different inputs give
    the same page in either order. *)
Theorem X2_changes_compose (p : Page) (e1 e2 : ChangeEvent) :
  (target e1 = target e2 ->
     steps [Change e1; Change e2] p = steps [Change e2] p) /\
  (target e1 <> target e2 ->
     steps [Change e1; Change e2] p = steps [Change e2; Change e1] p).
Proof.
  split; intros H; cbn [steps step]; rewrite !exec_change_change; f_equal.
  - rewrite exec_change.
    apply (with_app_details_ext (fun d => assign e2 (assign e1 d)) (assign e2)).
    now apply assign_same_target.
  - apply (with_app_details_ext (fun d => assign e2 (assign e1 d))
             (fun d => assign e1 (assign e2 d))).
    now apply assign_other_target.
Qed.

Lemma X2_changes_compose_witness :
  (target (TextChange f_amount "500") = target (TextChange f_amount "750") /\
   target (TextChange f_amount "500") <> target (LanguageChange English)) /\
  steps [Change (TextChange f_amount "500"); Change (TextChange f_amount "750")]
    (initialPage None)
  = steps [Change (TextChange f_amount "750")] (initialPage None) /\
  steps [Change (TextChange f_amount "500"); Change (LanguageChange English)]
    (initialPage None)
  = steps [Change (LanguageChange English); Change (TextChange f_amount "500")]
      (initialPage None).
Proof.
  split; [split; [reflexivity | discriminate] |].
  split.
  - apply (X2_changes_compose (initialPage None)
             (TextChange f_amount "500") (TextChange f_amount "750")).
    reflexivity.
  - apply (X2_changes_compose (initialPage None)
             (TextChange f_amount "500") (LanguageChange English)).
    discriminate.
Defined.

(** ** Hidden inputs (lines 106-107, 138 and 262-285) *)

(** X3. An input the form does not render has no influence on the request:
    if the input named [name] is hidden for a situation record, the record
    with any value written to that field builds the same request.  So in
    collect mode the delay reason, the proposed solution and both custom
    texts are ignored, and a custom text is ignored unless "Other (Custom)"
    is selected in negotiate mode. *)
Theorem X3_hidden_input_does_not_reach_request
    (key : option string) (d : SituationDetails) (name : TextField) (value : string) :
  rendered name d = false ->
  request key (assign (TextChange name value) d) = request key d.
Proof.
  intros H. unfold request, Prompt.userPrompt, Prompt.negotiateLines.
  destruct name; try discriminate H;
    unfold rendered, showsCustomReason, showsCustomSolution,
      showsNegotiateFields in H;
    cbn [mode assign] in *;
    destruct (mode d) eqn:Em; try discriminate H; try reflexivity.
  - (* customReason, negotiate, another reason selected *)
    simpl in H. unfold Prompt.finalReason. cbn [delayReason customReason assign].
    rewrite H. reflexivity.
  - (* customSolution, negotiate, another solution selected *)
    simpl in H. unfold Prompt.finalSolution.
    cbn [proposedSolution customSolution assign]. rewrite H. reflexivity.
Qed.

Lemma X3_hidden_input_does_not_reach_request_witness :
  rendered f_customReason collectDetails = false /\
  request None (assign (TextChange f_customReason "Lost my phone") collectDetails)
  = request None collectDetails.
Proof.
  split; [reflexivity |].
  apply (X3_hidden_input_does_not_reach_request None collectDetails
           f_customReason "Lost my phone").
  reflexivity.
Defined.

(** ** Mode buttons (lines 194-205) *)

Lemma with_mode_same d : with_mode (mode d) d = d.
Proof. destruct d; reflexivity. Qed.

(** X4. The mode buttons compose: of two presses the later one decides the
    page, and pressing the other button and then the button of the mode the
    record had restores the whole situation record, custom texts included,
    so that it builds the same request; the result stays cleared. *)
Theorem X4_mode_buttons_compose (p : Page) (m m' : Mode) :
  steps [modeButton m'; modeButton m] p = steps [modeButton m] p /\
  (mode (details (app p)) = m ->
   exists p',
     steps [modeButton m'; modeButton m] p = Some p' /\
     details (app p') = details (app p) /\
     result (app p') = JNull /\
     forall key, request key (details (app p')) = request key (details (app p))).
Proof.
  split.
  - destruct m, m'; reflexivity.
  - intros Hm. exists (exec (selectMode m) p).
    assert (Hd : details (app (exec (selectMode m) p)) = details (app p)).
    { simpl. rewrite <- Hm. apply with_mode_same. }
    split; [destruct m, m'; reflexivity |].
    split; [exact Hd |]. split; [reflexivity |].
    intros key. now rewrite Hd.
Qed.

Lemma X4_mode_buttons_compose_witness :
  mode (details (app shownPage)) = collect /\
  exists p',
    steps [ClickNegotiate; ClickCollect] shownPage = Some p' /\
    details (app p') = details (app shownPage) /\
    result (app p') = JNull.
Proof.
  split; [reflexivity |].
  destruct (X4_mode_buttons_compose shownPage collect negotiate) as [_ H].
  destruct (H eq_refl) as (p' & Hs & Hd & Hr & _).
  exists p'. repeat split; assumption.
Defined.

(** ** What holds on every page of a session *)

Lemma session_inv_initial key : session_inv key (initialPage key).
Proof.
  split; simpl; auto.
  intros H. now elim H.
Qed.

Lemma step_session_inv key e p p' :
  inv p -> session_inv key p -> step e p = Some p' -> session_inv key p'.
Proof.
  intros Hinv [Hk He Hl Ho Hr Hs Hc] Hstep.
  destruct e as [c | | | | i | n o | id | ms].
  - (* Change *)
    injection Hstep as <-. split; simpl; assumption.
  - (* ClickCollect *)
    injection Hstep as <-. split; simpl; try assumption. now left.
  - (* ClickNegotiate *)
    injection Hstep as <-. split; simpl; try assumption. now left.
  - (* ClickGenerate *)
    simpl in Hstep. unfold generateDisabled in Hstep.
    destruct (loading (app p)) eqn:El; [discriminate |].
    injection Hstep as <-.
    destruct (amount (details (app p))) eqn:Ea.
    + rewrite generateOutput_empty by assumption.
      split; simpl; try assumption; [auto | congruence].
    + assert (Hne : amount (details (app p)) <> EmptyString)
        by (rewrite Ea; discriminate).
      rewrite generateOutput_nonempty by assumption.
      split; simpl; try assumption; auto.
      apply Forall_app. split; [assumption |].
      constructor; [| constructor].
      exists (details (app p)). rewrite Hk. auto.
  - (* ClickCopy *)
    simpl in Hstep. destruct (nth_error (cards (app p)) i) as [v |]; [| discriminate].
    injection Hstep as <-. split; simpl; try assumption.
    intros _. eexists. split; [apply in_or_app; right; left; reflexivity |].
    simpl. lia.
  - (* Settle *)
    destruct (settle_inv _ _ _ _ Hinv Hstep) as (El & _ & Hnull & ->).
    destruct o as [err | response].
    + rewrite afterAwait_rejected, exec_onFault.
      split; simpl; try assumption; auto. discriminate.
    + destruct (Json.parse (parsedText response)) as [j |] eqn:E.
      * rewrite (afterAwait_parsed _ _ E), exec_onSuccess.
        split; simpl; try assumption; [discriminate | right; now exists response].
      * rewrite (afterAwait_unparsed _ E), exec_onFault.
        split; simpl; try assumption; auto. discriminate.
  - (* TimerFires *)
    simpl in Hstep. destruct (find_timer id p) as [t |] eqn:Hfind; [| discriminate].
    destruct (Nat.leb (due t) (clock p)); [| discriminate].
    injection Hstep as <-.
    apply find_timer_In in Hfind. destruct Hfind as [Hin _].
    destruct Hinv as [_ Ht]. rewrite Forall_forall in Ht.
    destruct (Ht _ Hin) as [_ Hcb]. rewrite Hcb.
    split; simpl; try assumption. intros H. now elim H.
  - (* Tick *)
    injection Hstep as <-. split; simpl; try assumption.
    intros H. destruct (Hc H) as (t & Hin & Hd). exists t. split; [exact Hin | lia].
Qed.

Lemma steps_session_inv key es :
  forall p p', inv p -> session_inv key p -> steps es p = Some p' ->
               inv p' /\ session_inv key p'.
Proof.
  induction es as [| e es IH]; simpl; intros p p' Hinv Hsi Hs.
  - injection Hs as <-. now split.
  - destruct (step e p) as [p1 |] eqn:E; [| discriminate].
    eapply IH; [| | exact Hs].
    + eapply step_inv; eassumption.
    + eapply step_session_inv; eassumption.
Qed.

Lemma reachable_session_inv p :
  reachable p -> inv p /\ session_inv (API_KEY p) p.
Proof.
  intros (key & es & H).
  destruct (steps_session_inv key es _ _ (inv_initial key)
              (session_inv_initial key) H) as [Hinv Hsi].
  split; [exact Hinv |]. now rewrite (si_key _ _ Hsi).
Qed.

Lemma failedPage_reachable : reachable failedPage.
Proof. exists None, failedEvents. vm_compute. reflexivity. Qed.

Lemma copiedPage_reachable : reachable copiedPage.
Proof. exists None, copiedEvents. vm_compute. reflexivity. Qed.

(** ** The error banner (lines 96, 101, 176 and 305-310) *)

(** X5. On every page of a session the error cell is null or one of the two
    literal messages, the validation message or the generic one; and it
    changes only in a turn of [generateOutput], the click or the settlement:
    typing, switching mode, copying and timers leave the banner as it is. *)
Theorem X5_error_banner_messages (p : Page) :
  reachable p ->
  (error (app p) = None \/
   error (app p) = Some VALIDATION_ERROR \/
   error (app p) = Some GENERIC_ERROR) /\
  (forall e p',
     step e p = Some p' -> error (app p') <> error (app p) ->
     e = ClickGenerate \/ exists n o, e = Settle n o).
Proof.
  intros Hr. destruct (reachable_session_inv p Hr) as [Hinv Hsi].
  split; [exact (si_error _ _ Hsi) |].
  intros e p' Hs Hne.
  destruct e as [c | | | | i | n o | id | ms]; simpl in Hs.
  - injection Hs as <-. now elim Hne.
  - injection Hs as <-. now elim Hne.
  - injection Hs as <-. now elim Hne.
  - now left.
  - destruct (nth_error (cards (app p)) i); [| discriminate].
    injection Hs as <-. now elim Hne.
  - right. now exists n, o.
  - destruct (find_timer id p) as [t |] eqn:Hfind; [| discriminate].
    destruct (Nat.leb (due t) (clock p)); [| discriminate].
    injection Hs as <-.
    apply find_timer_In in Hfind. destruct Hfind as [Hin _].
    destruct Hinv as [_ Ht]. rewrite Forall_forall in Ht.
    destruct (Ht _ Hin) as [_ Hcb]. rewrite Hcb in Hne. now elim Hne.
  - injection Hs as <-. now elim Hne.
Qed.

Lemma X5_error_banner_messages_witness :
  reachable failedPage /\
  (error (app failedPage) = None \/
   error (app failedPage) = Some VALIDATION_ERROR \/
   error (app failedPage) = Some GENERIC_ERROR).
Proof.
  split; [exact failedPage_reachable |].
  exact (proj1 (X5_error_banner_messages failedPage failedPage_reachable)).
Defined.

(** ** While the call is awaited (lines 100-102 and 294-313) *)

(** X6. On every page of a session, while the loading flag is on no result
    is stored, no card is shown and no error is set: the spinner is never
    shown together with a result or an error banner. *)
Theorem X6_nothing_shown_while_loading (p : Page) :
  reachable p ->
  loading (app p) = true ->
  result (app p) = JNull /\ cards (app p) = [] /\ error (app p) = None.
Proof.
  intros Hr Hl. destruct (reachable_session_inv p Hr) as [[Hf _] Hsi].
  destruct Hf as [[Hl' _] | (_ & _ & Hnull)]; [congruence |].
  split; [exact Hnull |]. split.
  - unfold cards. rewrite Hnull. reflexivity.
  - exact (si_loading _ _ Hsi Hl).
Qed.

Lemma X6_nothing_shown_while_loading_witness :
  (reachable awaitingPage /\ loading (app awaitingPage) = true) /\
  cards (app awaitingPage) = [].
Proof.
  split; [split; [exact awaitingPage_reachable | reflexivity] |].
  exact (proj1 (proj2 (X6_nothing_shown_while_loading awaitingPage
                         awaitingPage_reachable eq_refl))).
Defined.

(** ** The additional context (lines 78, 89-92 and 139) *)

(** X7. No input of the form is named [otherInfo] and no handler writes it,
    so on every page of a session the field is the empty string it was
    mounted with, and the prompt of a request built from the page ends with
    an empty "Additional Context: " line. *)
Theorem X7_additional_context_is_empty (p : Page) :
  reachable p ->
  otherInfo (details (app p)) = EmptyString /\
  Prompt.promptTail (details (app p)) =
    (Js.LF ++ "        Additional Context: " ++ Js.LF ++ "      ")%string /\
  contents (request (API_KEY p) (details (app p))) =
    (Prompt.promptHead (details (app p)) ++
     Prompt.negotiateLines (details (app p)) ++
     Js.LF ++ "        Additional Context: " ++ Js.LF ++ "      ")%string.
Proof.
  intros Hr. destruct (reachable_session_inv p Hr) as [_ Hsi].
  pose proof (si_otherInfo _ _ Hsi) as Ho.
  assert (Ht : Prompt.promptTail (details (app p)) =
               (Js.LF ++ "        Additional Context: " ++ Js.LF ++ "      ")%string).
  { unfold Prompt.promptTail. rewrite Ho. reflexivity. }
  split; [exact Ho |]. split; [exact Ht |].
  unfold request, Prompt.userPrompt. cbn [contents]. rewrite Ht. reflexivity.
Qed.

Lemma X7_additional_context_is_empty_witness :
  reachable stalePage /\ otherInfo (details (app stalePage)) = EmptyString.
Proof.
  split; [exact stalePage_reachable |].
  exact (proj1 (X7_additional_context_is_empty stalePage stalePage_reachable)).
Defined.

(** ** The calls made (lines 94-98 and 142-170) *)

(** X8. On every page of a session, every call made so far carries the
    request built, with the page's API key, from a situation record whose
    amount was not empty; and the only turn that makes a call is a click on
    the generate button with a non-empty amount, which makes exactly the
    call built from the record of that moment: no other event, and no
    settlement, sends anything. *)
Theorem X8_calls_come_from_valid_clicks (p : Page) :
  reachable p ->
  Forall (fun req => exists d, amount d <> EmptyString /\
                               req = request (API_KEY p) d) (sent p) /\
  (forall e p',
     step e p = Some p' ->
     sent p' = sent p \/
     (e = ClickGenerate /\ amount (details (app p)) <> EmptyString /\
      sent p' = sent p ++ [request (API_KEY p) (details (app p))])).
Proof.
  intros Hr. destruct (reachable_session_inv p Hr) as [Hinv Hsi]. split.
  - eapply Forall_impl; [| exact (si_sent _ _ Hsi)].
    intros req (d & Ha & _ & E). now exists d.
  - intros e p' Hs.
    destruct e as [c | | | | i | n o | id | ms]; simpl in Hs.
    + injection Hs as <-. now left.
    + injection Hs as <-. now left.
    + injection Hs as <-. now left.
    + destruct (generateDisabled (app p)); [discriminate |].
      injection Hs as <-.
      destruct (amount (details (app p))) eqn:Ea.
      * left. rewrite generateOutput_empty by assumption. reflexivity.
      * right. split; [reflexivity |]. split; [discriminate |].
        rewrite generateOutput_nonempty by (rewrite Ea; discriminate).
        reflexivity.
    + destruct (nth_error (cards (app p)) i); [| discriminate].
      injection Hs as <-. now left.
    + left. destruct (settle_inv _ _ _ _ Hinv Hs) as (_ & _ & _ & ->).
      destruct (exec_afterAwait o (with_pending [] p))
        as (_ & _ & _ & _ & _ & _ & Hsent & _).
      exact Hsent.
    + destruct (find_timer id p) as [t |]; [| discriminate].
      destruct (Nat.leb (due t) (clock p)); [| discriminate].
      injection Hs as <-. now left.
    + injection Hs as <-. now left.
Qed.

Lemma X8_calls_come_from_valid_clicks_witness :
  reachable shownPage /\
  Forall (fun req => exists d, amount d <> EmptyString /\
                               req = request (API_KEY shownPage) d)
    (sent shownPage).
Proof.
  split; [exact shownPage_reachable |].
  exact (proj1 (X8_calls_come_from_valid_clicks shownPage shownPage_reachable)).
Defined.

(** ** Where a stored result comes from (lines 85, 102, 172-173, 195, 201) *)

Lemma step_result e p p' :
  inv p -> step e p = Some p' ->
  result (app p') = JNull \/ result (app p') = result (app p) \/
  settled_with [e] (result (app p')).
Proof.
  intros Hinv Hs. destruct e as [c | | | | i | n o | id | ms].
  - injection Hs as <-. right. now left.
  - injection Hs as <-. now left.
  - injection Hs as <-. now left.
  - simpl in Hs. destruct (generateDisabled (app p)); [discriminate |].
    injection Hs as <-.
    destruct (amount (details (app p))) eqn:Ha.
    + rewrite generateOutput_empty by assumption. right. now left.
    + rewrite generateOutput_nonempty by (rewrite Ha; discriminate). now left.
  - simpl in Hs. destruct (nth_error (cards (app p)) i); [| discriminate].
    injection Hs as <-. right. now left.
  - destruct (settle_inv _ _ _ _ Hinv Hs) as (_ & _ & Hnull & ->).
    destruct o as [err | response].
    + left. rewrite afterAwait_rejected, exec_onFault. exact Hnull.
    + destruct (Json.parse (parsedText response)) as [j |] eqn:E.
      * right. right. rewrite (afterAwait_parsed _ _ E), exec_onSuccess.
        exists n, response. split; [now left | exact E].
      * left. rewrite (afterAwait_unparsed _ E), exec_onFault. exact Hnull.
  - simpl in Hs. destruct (find_timer id p) as [t |] eqn:Hfind; [| discriminate].
    destruct (Nat.leb (due t) (clock p)); [| discriminate].
    injection Hs as <-.
    apply find_timer_In in Hfind. destruct Hfind as [Hin _].
    destruct Hinv as [_ Ht]. rewrite Forall_forall in Ht.
    destruct (Ht _ Hin) as [_ Hcb]. rewrite Hcb. right. now left.
  - injection Hs as <-. right. now left.
Qed.

Lemma steps_result es :
  forall p p', inv p -> steps es p = Some p' ->
               result (app p') = JNull \/ result (app p') = result (app p) \/
               settled_with es (result (app p')).
Proof.
  induction es as [| e es IH]; simpl; intros p p' Hinv Hs.
  - injection Hs as <-. right. now left.
  - destruct (step e p) as [p1 |] eqn:E; [| discriminate].
    destruct (IH p1 p' (step_inv _ _ _ Hinv E) Hs)
      as [H | [H | (n & response & Hin & Hj)]].
    + now left.
    + rewrite H.
      destruct (step_result e p p1 Hinv E)
        as [H1 | [H1 | (n & response & Hin & Hj)]].
      * now left.
      * right. now left.
      * right. right. exists n, response. split; [| exact Hj].
        destruct Hin as [<- | []]. now left.
    + right. right. exists n, response. split; [now right | exact Hj].
Qed.

(** X9. In every session the stored result is null or the value that
    [JSON.parse] returned for the text of a response that settled a call of
    this session (for "{}" in place of an absent or empty text): no handler
    builds or edits a result of its own. *)
Theorem X9_result_is_null_or_a_parse
    (key : option string) (es : list Event) (p : Page) :
  steps es (initialPage key) = Some p ->
  result (app p) = JNull \/
  exists n response,
    In (Settle n (inr response)) es /\
    Json.parse (parsedText response) = Some (result (app p)).
Proof.
  intros Hs.
  destruct (steps_result es _ _ (inv_initial key) Hs) as [H | [H | H]].
  - now left.
  - now left.
  - right. exact H.
Qed.

Lemma X9_result_is_null_or_a_parse_witness :
  steps staleEvents (initialPage None) = Some stalePage /\
  (result (app stalePage) = JNull \/
   exists n response,
     In (Settle n (inr response)) staleEvents /\
     Json.parse (parsedText response) = Some (result (app stalePage))).
Proof.
  assert (Hs : steps staleEvents (initialPage None) = Some stalePage)
    by (vm_compute; reflexivity).
  split; [exact Hs |].
  exact (X9_result_is_null_or_a_parse None staleEvents stalePage Hs).
Defined.

(** ** The timers of the copied indicator (lines 184-185) *)

Lemma find_after_drop id (l : list Timer) :
  find (fun t => Nat.eqb (tid t) id)
    (filter (fun t => negb (Nat.eqb (tid t) id)) l) = None.
Proof.
  induction l as [| t l IH]; simpl; [reflexivity |].
  destruct (Nat.eqb (tid t) id) eqn:E; simpl; [exact IH |].
  rewrite E. exact IH.
Qed.

(** X10. On every page of a session, whenever the copied indicator is set
    a timer that resets it is pending and due within 2000 ms of the current
    time, so the indicator cannot stay for good; and a timer that fires only
    resets the indicator, leaves the rest of the component state alone and
    cannot fire a second time. *)
Theorem X10_indicator_has_a_pending_reset (p : Page) :
  reachable p ->
  (copiedId (app p) <> None ->
   exists t, In t (timers p) /\ due t <= clock p + 2000 /\
             callback t = [SetCopiedId None]) /\
  (forall id p',
     step (TimerFires id) p = Some p' ->
     copiedId (app p') = None /\
     (details (app p'), loading (app p'), result (app p'), error (app p')) =
       (details (app p), loading (app p), result (app p), error (app p)) /\
     step (TimerFires id) p' = None).
Proof.
  intros Hr. destruct (reachable_session_inv p Hr) as [[_ Ht] Hsi].
  rewrite Forall_forall in Ht. split.
  - intros Hc. destruct (si_copied _ _ Hsi Hc) as (t & Hin & Hd).
    exists t. split; [exact Hin |]. split; [exact Hd |]. apply (Ht _ Hin).
  - intros id p' Hs. simpl in Hs.
    destruct (find_timer id p) as [t |] eqn:Hfind; [| discriminate].
    destruct (Nat.leb (due t) (clock p)); [| discriminate].
    injection Hs as <-.
    apply find_timer_In in Hfind. destruct Hfind as [Hin _].
    destruct (Ht _ Hin) as [_ Hcb]. rewrite Hcb.
    split; [reflexivity |]. split; [reflexivity |].
    simpl. unfold find_timer, drop_timer. simpl.
    now rewrite find_after_drop.
Qed.

Lemma X10_indicator_has_a_pending_reset_witness :
  (reachable copiedPage /\ copiedId (app copiedPage) <> None) /\
  exists t, In t (timers copiedPage) /\ due t <= clock copiedPage + 2000 /\
            callback t = [SetCopiedId None].
Proof.
  assert (Hc : copiedId (app copiedPage) <> None) by discriminate.
  split; [split; [exact copiedPage_reachable | exact Hc] |].
  exact (proj1 (X10_indicator_has_a_pending_reset copiedPage copiedPage_reachable) Hc).
Defined.

(** ** Edits while the call is awaited (lines 89-92, 172-173, 195, 201) *)

Lemma form_steps es :
  forall p, forallb is_form_event es = true ->
            exists p1, steps es p = Some p1 /\
                       pending p1 = pending p /\ sent p1 = sent p /\
                       loading (app p1) = loading (app p).
Proof.
  induction es as [| e es IH]; intros p Hes.
  - exists p. repeat split.
  - simpl in Hes. apply andb_true_iff in Hes. destruct Hes as [He Hes].
    assert (Hstep : exists p0, step e p = Some p0 /\ pending p0 = pending p /\
                               sent p0 = sent p /\
                               loading (app p0) = loading (app p)).
    { destruct e; try discriminate He; eexists; repeat split. }
    destruct Hstep as (p0 & Hs & Hp & Hsent & Hl).
    destruct (IH p0 Hes) as (p1 & Hs1 & Hp1 & Hsent1 & Hl1).
    exists p1. simpl. rewrite Hs. repeat split; congruence.
Qed.

(** X11. Nothing the user does to the form cancels or alters the awaited
    call.  From a page on which the call is awaited, after any sequence of
    input changes and mode switches, no further call has been made and the
    response, when it arrives and parses, is stored as the result next to
    the situation record as edited, under a new mode too. *)
Theorem X11_edits_do_not_cancel_the_call
    (p : Page) (es : list Event) (response : Response) (j : json) :
  reachable p ->
  loading (app p) = true ->
  forallb is_form_event es = true ->
  Json.parse (parsedText response) = Some j ->
  exists p1 p2,
    steps es p = Some p1 /\
    step (Settle 0 (inr response)) p1 = Some p2 /\
    result (app p2) = j /\
    details (app p2) = details (app p1) /\
    sent p2 = sent p /\
    loading (app p2) = false.
Proof.
  intros Hr Hl Hes Hj. apply reachable_inv in Hr.
  destruct Hr as [[[Hl' _] | (_ & Hp & _)] _]; [congruence |].
  destruct (form_steps es p Hes) as (p1 & Hs1 & Hp1 & Hsent1 & _).
  exists p1, (exec (onSuccess j) (with_pending [] p1)).
  split; [exact Hs1 |]. split.
  - simpl. rewrite Hp1, Hp. simpl. now rewrite (afterAwait_parsed _ _ Hj).
  - rewrite exec_onSuccess. simpl. repeat split. exact Hsent1.
Qed.

Lemma X11_edits_do_not_cancel_the_call_witness :
  (reachable awaitingPage /\ loading (app awaitingPage) = true) /\
  exists p1 p2,
    steps [ClickNegotiate; Change (TextChange f_amount "750")] awaitingPage
      = Some p1 /\
    step (Settle 0 (inr {| text := Some "[1]" |})) p1 = Some p2 /\
    result (app p2) = JArray [JNumber "1"] /\
    details (app p2) = details (app p1).
Proof.
  split; [split; [exact awaitingPage_reachable | reflexivity] |].
  destruct (X11_edits_do_not_cancel_the_call awaitingPage
              [ClickNegotiate; Change (TextChange f_amount "750")]
              {| text := Some "[1]" |} (JArray [JNumber "1"])
              awaitingPage_reachable eq_refl eq_refl eq_refl)
    as (p1 & p2 & H1 & H2 & Hres & Hd & _).
  exists p1, p2. repeat split; assumption.
Defined.

(** ** The identity of a card (lines 341-344) *)

Lemma digits_no_dash d : no_dash (NilEmpty.string_of_uint d).
Proof.
  induction d; simpl; intros c Hin;
    try (destruct Hin as [<- | Hin]; [discriminate | now apply IHd]).
  destruct Hin.
Qed.

Lemma to_uint_nonnil i : Nat.to_uint i <> Decimal.Nil.
Proof.
  intros H. assert (E : i = 0).
  { rewrite <- (DecimalNat.Unsigned.of_to i), H. reflexivity. }
  subst i. discriminate H.
Qed.

Lemma of_index_no_dash i : no_dash (Js.of_index i).
Proof.
  unfold Js.of_index, NilZero.string_of_uint.
  pose proof (to_uint_nonnil i) as Hn.
  destruct (Nat.to_uint i) eqn:E; try (rewrite <- E; apply digits_no_dash);
    try (apply digits_no_dash).
  now elim Hn.
Qed.

Lemma of_index_inj i j : Js.of_index i = Js.of_index j -> i = j.
Proof.
  unfold Js.of_index. intros H.
  apply (f_equal NilZero.uint_of_string) in H.
  rewrite !NilZero.usu in H by apply to_uint_nonnil.
  injection H as H. now apply DecimalNat.Unsigned.to_uint_inj.
Qed.

Lemma dash_inside b y :
  In "-"%char (list_ascii_of_string (b ++ String "-" y)).
Proof. induction b as [| c b IH]; simpl; auto. Qed.

Lemma dash_split a :
  forall b x y,
    no_dash x -> no_dash y ->
    (a ++ String "-" x = b ++ String "-" y)%string -> a = b /\ x = y.
Proof.
  induction a as [| c a IH]; intros [| c' b] x y Hx Hy H; simpl in H.
  - injection H as ->. now split.
  - injection H as Hc ->. exfalso. apply (Hx "-"%char); [| reflexivity].
    apply dash_inside.
  - injection H as Hc <-. exfalso. apply (Hy "-"%char); [| reflexivity].
    apply dash_inside.
  - injection H as -> H. destruct (IH b x y Hx Hy H) as [-> ->]. now split.
Qed.

Lemma cardId_inj v w i j :
  cardId v i = cardId w j -> i = j /\ variant v = variant w.
Proof.
  unfold cardId. intros H.
  destruct (dash_split (variant v) (variant w) (Js.of_index i) (Js.of_index j)
              (of_index_no_dash i) (of_index_no_dash j) H) as [Hv Hi].
  split; [now apply of_index_inj | exact Hv].
Qed.

(** X12. The card identities [`${v.variant}-${i}`] tell the cards apart:
    two cards with the same identity have the same index and the same
    variant label.  So after the copy button of a displayed card is
    pressed, that card shows the check mark and no card at another index
    does, whatever labels the variants carry. *)
Theorem X12_one_card_shows_copied (p : Page) (i : nat) (v : GeneratedMessage) :
  nth_error (cards (app p)) i = Some v ->
  exists p1,
    step (ClickCopy i) p = Some p1 /\
    cards (app p1) = cards (app p) /\
    isCopied (app p1) v i = true /\
    (forall j w, isCopied (app p1) w j = true -> j = i /\ variant w = variant v) /\
    (forall j w, cardId v i = cardId w j -> i = j /\ variant v = variant w).
Proof.
  intros Hv. exists (exec (copyCard v i) p).
  split; [simpl; now rewrite Hv |]. split; [reflexivity |].
  split; [unfold isCopied; simpl; apply String.eqb_refl |].
  split.
  - intros j w H. unfold isCopied in H. simpl in H.
    apply String.eqb_eq in H. apply cardId_inj in H. destruct H; now split.
  - intros j w. apply cardId_inj.
Qed.

Lemma X12_one_card_shows_copied_witness :
  nth_error (cards (app shownPage)) 0 = Some sampleVariant /\
  exists p1,
    step (ClickCopy 0) shownPage = Some p1 /\
    isCopied (app p1) sampleVariant 0 = true /\
    isCopied (app p1) sampleVariant 1 = false.
Proof.
  split; [reflexivity |].
  destruct (X12_one_card_shows_copied shownPage 0 sampleVariant eq_refl)
    as (p1 & Hs & _ & Hc & Hu & _).
  exists p1. split; [exact Hs |]. split; [exact Hc |].
  destruct (isCopied (app p1) sampleVariant 1) eqn:E; [| reflexivity].
  destruct (Hu 1 sampleVariant E) as [H _]. discriminate H.
Defined.

(** ** Overlapping copies (lines 182-186) *)

Lemma find_app_some {A} (f : A -> bool) l l' x :
  find f l = Some x -> find f (l ++ l') = Some x.
Proof.
  induction l as [| y l IH]; simpl; [discriminate |].
  destruct (f y); [trivial | exact IH].
Qed.

(** X13. The timer of a copy is not cancelled by a later copy.  When a
    second card is copied [dt] ms after a first one ([dt] at most 2000), the
    indicator shows the second card, and the timer of the first copy, firing
    2000 ms after the first copy, clears it: the second acknowledgement is
    cut short to 2000 - [dt] ms, while the timer of the second copy is
    still pending. *)
Theorem X13_earlier_timer_clears_later_copy
    (p : Page) (i j : nat) (v w : GeneratedMessage) (dt : nat) :
  reachable p ->
  nth_error (cards (app p)) i = Some v ->
  nth_error (cards (app p)) j = Some w ->
  dt <= 2000 ->
  exists p3 p4,
    steps [ClickCopy i; Tick dt; ClickCopy j; Tick (2000 - dt)] p = Some p3 /\
    copiedId (app p3) = Some (cardId w j) /\
    step (TimerFires (nextTimer p)) p3 = Some p4 /\
    copiedId (app p4) = None /\
    clock p4 = clock p + 2000 /\
    In {| tid := S (nextTimer p); due := clock p + dt + 2000;
          callback := [SetCopiedId None] |} (timers p4).
Proof.
  intros Hr Hv Hw Hdt. apply reachable_inv in Hr. destruct Hr as [_ Ht].
  set (p1 := exec (copyCard v i) p).
  set (p2 := with_clock (clock p1 + dt) p1).
  set (p3 := exec (copyCard w j) p2).
  set (p4 := with_clock (clock p3 + (2000 - dt)) p3).
  assert (Hsteps : steps [ClickCopy i; Tick dt; ClickCopy j; Tick (2000 - dt)] p
                   = Some p4).
  { rewrite (steps_cons _ _ _ _ (step_copy p i v Hv)).
    rewrite (steps_cons (Tick dt) _ p1 p2 eq_refl).
    rewrite (steps_cons _ _ _ _ (step_copy p2 j w Hw)).
    reflexivity. }
  assert (Hfind : find_timer (nextTimer p) p4 =
                  Some {| tid := nextTimer p; due := clock p + 2000;
                          callback := [SetCopiedId None] |}).
  { unfold find_timer. simpl. apply find_app_some.
    apply find_fresh; [exact Ht | reflexivity]. }
  assert (Hclock : clock p4 = clock p + 2000).
  { change (clock p4) with (clock p + dt + (2000 - dt)). lia. }
  exists p4. eexists. split; [exact Hsteps |]. split; [reflexivity |].
  split.
  - cbn [step]. rewrite Hfind. cbn [due callback].
    rewrite Hclock, Nat.leb_refl. reflexivity.
  - split; [reflexivity |]. split; [exact Hclock |].
    simpl. unfold drop_timer. apply filter_In. split.
    + simpl. apply in_or_app. right. left. reflexivity.
    + cbn [tid]. apply negb_true_iff. apply Nat.eqb_neq. lia.
Qed.

Lemma X13_earlier_timer_clears_later_copy_witness :
  (reachable shownPage /\
   nth_error (cards (app shownPage)) 0 = Some sampleVariant /\ 500 <= 2000) /\
  exists p3 p4,
    steps [ClickCopy 0; Tick 500; ClickCopy 0; Tick (2000 - 500)] shownPage
      = Some p3 /\
    step (TimerFires (nextTimer shownPage)) p3 = Some p4 /\
    copiedId (app p4) = None /\
    clock p4 = clock shownPage + 2000.
Proof.
  assert (Hle : 500 <= 2000) by lia.
  split; [split; [exact shownPage_reachable | split; [reflexivity | exact Hle]] |].
  destruct (X13_earlier_timer_clears_later_copy shownPage 0 0
              sampleVariant sampleVariant 500
              shownPage_reachable eq_refl eq_refl Hle)
    as (p3 & p4 & Hs & _ & Hf & Hc & Hk & _).
  exists p3, p4. repeat split; assumption.
Defined.

(** ** Faults of a generation (lines 104-179) *)

(** X14. No fault escapes [generateOutput]: whatever the boundary does, the
    handler returns normally (its promise never rejects).  A run whose call
    rejects or whose parse throws passes exactly that fault to
    [console.error], once; a run that fails validation or succeeds logs
    nothing. *)
Theorem X14_faults_are_caught_and_logged
    (key : option string) (d : SituationDetails) (oracle : Request -> Outcome) :
  completion (generateOutput key d) oracle = inr tt /\
  (amount d <> EmptyString -> faults (oracle (request key d)) ->
   logged (actions (generateOutput key d) oracle) = [thrown (oracle (request key d))]) /\
  (amount d = EmptyString \/ ~ faults (oracle (request key d)) ->
   logged (actions (generateOutput key d) oracle) = []).
Proof.
  split; [apply generateOutput_returns |]. split.
  - intros Ha Hf. rewrite (generateOutput_nonempty key d Ha).
    cbn [actions]. rewrite (afterAwait_faults _ Hf). reflexivity.
  - intros H. destruct (amount d) eqn:Ea.
    + rewrite (generateOutput_empty key d Ea). reflexivity.
    + destruct H as [H | H]; [discriminate H |].
      rewrite generateOutput_nonempty by (rewrite Ea; discriminate).
      cbn [actions].
      destruct (oracle (request key d)) as [err | response].
      * elim H. exact I.
      * destruct (Json.parse (parsedText response)) as [j |] eqn:E.
        -- rewrite (afterAwait_parsed _ _ E). reflexivity.
        -- elim H. exact E.
Qed.

Lemma X14_faults_are_caught_and_logged_witness :
  (amount exampleDetails <> EmptyString /\
   faults (inl (Rejected "offline"))) /\
  logged (actions (generateOutput None exampleDetails)
            (fun _ => inl (Rejected "offline"))) = [Rejected "offline"].
Proof.
  assert (Ha : amount exampleDetails <> EmptyString) by discriminate.
  split; [split; [exact Ha | exact I] |].
  exact (proj1 (proj2 (X14_faults_are_caught_and_logged None exampleDetails
                         (fun _ => inl (Rejected "offline")))) Ha I).
Defined.

(** ** The clipboard (line 183) *)

Lemma step_keeps_clipboard e p p' :
  inv p -> is_copy e = false -> step e p = Some p' ->
  clipboard p' = clipboard p.
Proof.
  intros Hinv Hw Hs. destruct e as [c | | | | i | n o | id | ms];
    try discriminate Hw.
  - injection Hs as <-. reflexivity.
  - injection Hs as <-. reflexivity.
  - injection Hs as <-. reflexivity.
  - simpl in Hs. destruct (generateDisabled (app p)); [discriminate |].
    injection Hs as <-.
    destruct (amount (details (app p))) eqn:Ha.
    + rewrite generateOutput_empty by assumption. reflexivity.
    + rewrite generateOutput_nonempty by (rewrite Ha; discriminate). reflexivity.
  - destruct (settle_inv _ _ _ _ Hinv Hs) as (_ & _ & _ & ->).
    destruct (exec_afterAwait o (with_pending [] p))
      as (_ & _ & _ & _ & _ & _ & _ & _ & Hc & _).
    exact Hc.
  - simpl in Hs. destruct (find_timer id p) as [t |]; [| discriminate].
    destruct (Nat.leb (due t) (clock p)); [| discriminate].
    injection Hs as <-. reflexivity.
  - injection Hs as <-. reflexivity.
Qed.

Lemma steps_keep_clipboard es :
  forall p p', inv p -> forallb (fun e => negb (is_copy e)) es = true ->
               steps es p = Some p' -> clipboard p' = clipboard p.
Proof.
  induction es as [| e es IH]; simpl; intros p p' Hinv Hq Hs.
  - now injection Hs as <-.
  - apply andb_true_iff in Hq. destruct Hq as [Hq1 Hq2].
    apply negb_true_iff in Hq1.
    destruct (step e p) as [p1 |] eqn:E; [| discriminate].
    rewrite (IH _ _ (step_inv _ _ _ Hinv E) Hq2 Hs).
    now apply step_keeps_clipboard with (e := e).
Qed.

(** X15. Only the copy buttons write the clipboard.  After the copy button
    of a displayed card is pressed, the clipboard holds that card's content
    for as long as no other copy is made: generations, their settlements,
    form edits, mode switches and timers leave it alone, also once the
    acknowledgement is gone. *)
Theorem X15_clipboard_keeps_last_copy (p : Page) (i : nat) (v : GeneratedMessage) :
  reachable p ->
  nth_error (cards (app p)) i = Some v ->
  exists p1,
    step (ClickCopy i) p = Some p1 /\
    forall es p2,
      forallb (fun e => negb (is_copy e)) es = true ->
      steps es p1 = Some p2 ->
      clipboard p2 = Some (content v).
Proof.
  intros Hr Hv. apply reachable_inv in Hr.
  pose proof (step_copy p i v Hv) as Hs.
  exists (exec (copyCard v i) p). split; [exact Hs |].
  intros es p2 Hq Hes.
  rewrite (steps_keep_clipboard es _ _ (step_inv _ _ _ Hr Hs) Hq Hes).
  reflexivity.
Qed.

Lemma X15_clipboard_keeps_last_copy_witness :
  (reachable shownPage /\
   nth_error (cards (app shownPage)) 0 = Some sampleVariant) /\
  exists p1 p2,
    step (ClickCopy 0) shownPage = Some p1 /\
    steps [Tick 2000; TimerFires 0; ClickNegotiate] p1 = Some p2 /\
    clipboard p2 = Some "Namaste".
Proof.
  split; [split; [exact shownPage_reachable | reflexivity] |].
  destruct (X15_clipboard_keeps_last_copy shownPage 0 sampleVariant
              shownPage_reachable eq_refl) as (p1 & Hs & Hkeep).
  assert (E : p1 = copiedPage).
  { rewrite (step_copy shownPage 0 sampleVariant eq_refl) in Hs.
    now injection Hs. }
  subst p1. exists copiedPage. eexists.
  split; [exact Hs |]. split; [vm_compute; reflexivity |].
  apply (Hkeep [Tick 2000; TimerFires 0; ClickNegotiate]); [reflexivity |].
  vm_compute. reflexivity.
Defined.

(** ** The view of a value of the [Result] shape (lines 313-368) *)

Lemma get_field_string k j s :
  field k as_string j = Some s -> get k j = Some (JString s).
Proof.
  unfold field. destruct (get k j) as [v |]; [| discriminate].
  destruct v; simpl; try discriminate. now intros [= ->].
Qed.

Lemma get_field_array {B} k (f : json -> option B) j l :
  field k (as_array f) j = Some l ->
  exists items, get k j = Some (JArray items) /\ all_map f items = Some l.
Proof.
  unfold field. destruct (get k j) as [v |]; [| discriminate].
  destruct v; simpl; try discriminate. intros H. eexists. now split.
Qed.

Lemma strings_child_ok items :
  forall l, all_map as_string items = Some l ->
            forallb View.child_ok items = true.
Proof.
  induction items as [| x items IH]; intros l H; [reflexivity |].
  simpl in H. destruct x; simpl in H; try discriminate.
  destruct (all_map as_string items) as [l' |]; [| discriminate].
  simpl. now apply (IH l').
Qed.

Lemma message_card v g : as_GeneratedMessage v = Some g -> View.card_of v = Some g.
Proof.
  unfold as_GeneratedMessage.
  destruct (field "variant" as_string v) as [a |] eqn:Ea; [| discriminate].
  destruct (field "title" as_string v) as [b |] eqn:Eb; [| discriminate].
  destruct (field "content" as_string v) as [c |] eqn:Ec; [| discriminate].
  intros [= <-].
  apply get_field_string in Ea. apply get_field_string in Eb.
  apply get_field_string in Ec.
  destruct v; try discriminate Ea.
  unfold View.card_of. rewrite Ea, Eb, Ec. reflexivity.
Qed.

Lemma messages_cards vs :
  forall l, all_map as_GeneratedMessage vs = Some l ->
            all_map View.card_of vs = Some l.
Proof.
  induction vs as [| v vs IH]; intros l H; [exact H |].
  simpl in H. destruct (as_GeneratedMessage v) as [g |] eqn:Eg; [| discriminate].
  destruct (all_map as_GeneratedMessage vs) as [l' |]; [| discriminate].
  injection H as <-. simpl. rewrite (message_card _ _ Eg), (IH l' eq_refl).
  reflexivity.
Qed.

(** A value of the [Result] shape renders, with one card per variant. *)
Lemma as_Result_renders j r :
  as_Result j = Some r -> View.render_result j = Some (variants r).
Proof.
  unfold as_Result.
  destruct (field "summary" as_string j) as [s |] eqn:Es; [| discriminate].
  destruct (field "principles" (as_array as_string) j) as [ps |] eqn:Ep;
    [| discriminate].
  destruct (field "variants" (as_array as_GeneratedMessage) j) as [vs |] eqn:Ev;
    [| discriminate].
  destruct (field "voiceNote" as_string j) as [n |] eqn:En; [| discriminate].
  intros [= <-]. cbn [variants].
  apply get_field_string in Es. apply get_field_string in En.
  apply get_field_array in Ep. destruct Ep as (pitems & Ep & Hps).
  apply get_field_array in Ev. destruct Ev as (vitems & Ev & Hvs).
  destruct j; try discriminate Es.
  unfold View.render_result. cbn [View.truthy].
  rewrite Es, En, Ep, Ev. cbn [View.child_ok_value View.child_ok andb].
  rewrite (strings_child_ok _ _ Hps). now apply messages_cards.
Qed.

(** ** The cards of a stored result (lines 172-173 and 333-341) *)

(** X16. When the awaited call returns a text that parses to a value of the
    [Result] shape, the page shows one card per returned variant, in the
    order returned and with the fields returned, and the copy button of
    each card writes that variant's content to the clipboard. *)
Theorem X16_cards_are_the_returned_variants
    (p : Page) (response : Response) (j : json) (r : Result) :
  reachable p ->
  loading (app p) = true ->
  Json.parse (parsedText response) = Some j ->
  as_Result j = Some r ->
  exists p',
    step (Settle 0 (inr response)) p = Some p' /\
    cards (app p') = variants r /\
    error (app p') = None /\
    forall i v,
      nth_error (variants r) i = Some v ->
      exists p'', step (ClickCopy i) p' = Some p'' /\
                  clipboard p'' = Some (content v) /\
                  copiedId (app p'') = Some (cardId v i).
Proof.
  intros Hr Hl Hj Has.
  destruct (reachable_session_inv p Hr) as [Hinv Hsi].
  pose proof (si_loading _ _ Hsi Hl) as Herr.
  destruct Hinv as [[[Hl' _] | (_ & Hp & _)] _]; [congruence |].
  exists (exec (onSuccess j) (with_pending [] p)).
  assert (Hc : cards (app (exec (onSuccess j) (with_pending [] p))) = variants r).
  { rewrite exec_onSuccess. unfold cards. cbn [app with_app update result].
    rewrite (as_Result_renders _ _ Has). reflexivity. }
  split; [| split; [exact Hc | split]].
  - simpl. rewrite Hp. simpl. now rewrite (afterAwait_parsed _ _ Hj).
  - rewrite exec_onSuccess. exact Herr.
  - intros i v Hv. rewrite <- Hc in Hv.
    eexists. split; [exact (step_copy _ i v Hv) |]. split; reflexivity.
Qed.

Lemma X16_cards_are_the_returned_variants_witness :
  (reachable awaitingPage /\ loading (app awaitingPage) = true /\
   Json.parse (parsedText {| text := Some sampleText |}) <> None) /\
  exists p',
    step (Settle 0 (inr {| text := Some sampleText |})) awaitingPage = Some p' /\
    cards (app p') = [sampleVariant].
Proof.
  split; [split; [exact awaitingPage_reachable | split; [reflexivity |]] |].
  - vm_compute. discriminate.
  - assert (Hj : exists j, Json.parse (parsedText {| text := Some sampleText |})
                           = Some j /\ as_Result j = Some sampleResult).
    { eexists. split; vm_compute; reflexivity. }
    destruct Hj as (j & Hj & Has).
    destruct (X16_cards_are_the_returned_variants awaitingPage
                {| text := Some sampleText |} j sampleResult
                awaitingPage_reachable eq_refl Hj Has) as (p' & Hs & Hc & _).
    exists p'. split; assumption.
Defined.

(** ** What the request tells about the record (lines 109-140) *)

(** X17. The request always tells the model the language and the mode:
    two situation records that build the same request agree on [language]
    (through the system instruction) and on [mode] (through the first line
    of the prompt). *)
Theorem X17_request_determines_language_and_mode
    (key1 key2 : option string) (d1 d2 : SituationDetails) :
  request key1 d1 = request key2 d2 ->
  language d1 = language d2 /\ mode d1 = mode d2.
Proof.
  intros H. split.
  - apply (f_equal (fun r => systemInstruction (config r))) in H.
    unfold request in H. cbn [config systemInstruction] in H.
    unfold Prompt.systemInstruction, Prompt.languageInstruction in H.
    destruct (language d1), (language d2); try reflexivity.
    + elim instructions_differ. exact H.
    + elim instructions_differ. symmetry. exact H.
  - apply (f_equal contents) in H. unfold request in H. cbn [contents] in H.
    unfold Prompt.userPrompt, Prompt.promptHead in H.
    destruct (mode d1), (mode d2); try reflexivity; simpl in H; discriminate H.
Qed.

Lemma X17_request_determines_language_and_mode_witness :
  request None exampleDetails =
    request None (assign (TextChange f_customerName "Customer") exampleDetails) /\
  language exampleDetails =
    language (assign (TextChange f_customerName "Customer") exampleDetails).
Proof.
  split; [reflexivity |].
  apply (X17_request_determines_language_and_mode None None exampleDetails
           (assign (TextChange f_customerName "Customer") exampleDetails)).
  reflexivity.
Defined.

(** ** Calls and settlements (lines 142-179) *)

Lemma step_accounting e p p' :
  inv p -> step e p = Some p' ->
  List.length (sent p') + List.length (pending p) + settlements [e] =
  List.length (sent p) + List.length (pending p') + 2 * settlements [e].
Proof.
  intros Hinv Hs. destruct e as [c | | | | i | n o | id | ms]; simpl in Hs.
  - injection Hs as <-. simpl. lia.
  - injection Hs as <-. simpl. lia.
  - injection Hs as <-. simpl. lia.
  - destruct (generateDisabled (app p)); [discriminate |].
    injection Hs as <-.
    destruct (amount (details (app p))) eqn:Ha.
    + rewrite generateOutput_empty by assumption. simpl. lia.
    + rewrite generateOutput_nonempty by (rewrite Ha; discriminate).
      simpl. rewrite !length_app. simpl. lia.
  - destruct (nth_error (cards (app p)) i); [| discriminate].
    injection Hs as <-. simpl. lia.
  - assert (Hs' : step (Settle n o) p = Some p') by exact Hs.
    destruct (settle_inv _ _ _ _ Hinv Hs') as (Hl & _ & _ & ->).
    destruct (exec_afterAwait o (with_pending [] p))
      as (_ & _ & _ & Hp & _ & _ & Hsent & _).
    rewrite Hp, Hsent.
    destruct Hinv as [[[Hl' _] | (_ & Hpend & _)] _]; [congruence |].
    rewrite Hpend. simpl. lia.
  - destruct (find_timer id p) as [t |]; [| discriminate].
    destruct (Nat.leb (due t) (clock p)); [| discriminate].
    injection Hs as <-. simpl. lia.
  - injection Hs as <-. simpl. lia.
Qed.

Lemma settlements_cons e es :
  settlements (e :: es) = settlements [e] + settlements es.
Proof. destruct e; reflexivity. Qed.

Lemma steps_accounting es :
  forall p p', inv p -> steps es p = Some p' ->
               List.length (sent p') + List.length (pending p) =
               List.length (sent p) + List.length (pending p') + settlements es.
Proof.
  induction es as [| e es IH]; intros p p' Hinv Hs.
  - simpl in Hs. injection Hs as <-. simpl. lia.
  - simpl in Hs. destruct (step e p) as [p1 |] eqn:E; [| discriminate].
    pose proof (step_accounting e p p1 Hinv E) as H1.
    pose proof (IH p1 p' (step_inv _ _ _ Hinv E) Hs) as H2.
    rewrite (settlements_cons e es). lia.
Qed.

(** X18. Calls are neither lost nor answered twice: in every session, the
    number of calls made equals the number of settlements that took place
    plus the number of calls still awaited (none or one). *)
Theorem X18_calls_are_settled_or_awaited
    (key : option string) (es : list Event) (p : Page) :
  steps es (initialPage key) = Some p ->
  List.length (sent p) = settlements es + List.length (pending p) /\
  List.length (pending p) <= 1.
Proof.
  intros Hs.
  pose proof (steps_accounting es _ _ (inv_initial key) Hs) as H.
  simpl in H. split; [lia |].
  destruct (steps_inv es _ _ (inv_initial key) Hs) as [[[_ ->] | (_ & -> & _)] _];
    simpl; lia.
Qed.

Lemma X18_calls_are_settled_or_awaited_witness :
  exists p,
    steps (failedEvents ++ [ClickGenerate; Settle 0 (inr {| text := None |})])
      (initialPage None) = Some p /\
    List.length (sent p) = 2.
Proof.
  assert (Hs : exists p,
             steps (failedEvents ++ [ClickGenerate; Settle 0 (inr {| text := None |})])
               (initialPage None) = Some p).
  { eexists. vm_compute. reflexivity. }
  destruct Hs as (p & Hs). exists p. split; [exact Hs |].
  destruct (X18_calls_are_settled_or_awaited None _ p Hs) as [H Hle].
  assert (Hp : pending p = []).
  { vm_compute in Hs. injection Hs as <-. reflexivity. }
  rewrite H, Hp. reflexivity.
Defined.
